(** * resize-image: option normalisation, fit geometry, rendering and the
      worker channel of [index.js], embedded in Rocq.

    Conventions of the embedding.

    - A JavaScript number is a finite rational ([Q]) or [NaN]: arithmetic is
      exact, the rounding error of IEEE doubles and the infinities are not
      modelled.  [Math.round] is [floor (x + 1/2)] (ties go up).  Where a
      product is exactly half-way between two integers the double of the
      code can fall just below it and round down: a derived side is
      therefore stated as an integer nearest to the exact value, which
      holds of either choice.
    - A JavaScript string is a [string] (a sequence of bytes);
      [toLowerCase] folds the ASCII letters.
    - A JavaScript value is one of the primitives ([value]).
    - What the browser provides (the [Number] conversion of strings, feature
      tests, the canvas encoder, the bitmap factory, the image loader) is the
      interface [Host]; what the worker side does during one call is an
      [Outcome].
    - [throw] is the [Err] of a sum type; the module-level [let] variables
      are the fields of an explicit [State] threaded through the calls, and
      each call runs to completion (a reply that never arrives, and the
      interleaving of concurrent calls, are not modelled). *)

From Stdlib Require Import ZArith QArith Qround Qminmax Bool List String Ascii Lia Lqa.
Import ListNotations.

Local Open Scope Z_scope.

(* ------------------------------------------------------------------ *)
(** ** Values *)

Inductive number :=
| NaN
| Num (q : Q).

Inductive value :=
| VUndefined
| VNull
| VBool (b : bool)
| VNumber (n : number)
| VString (s : string).

(** [!!v] *)
Definition truthy (v : value) : bool :=
  match v with
  | VUndefined | VNull => false
  | VBool b => b
  | VNumber NaN => false
  | VNumber (Num q) => negb (Qeq_bool q 0)
  | VString s => negb (String.eqb s EmptyString)
  end.

(** [a === b] where [b] is a string literal *)
Definition strict_eq_string (a : value) (b : string) : bool :=
  match a with
  | VString s => String.eqb s b
  | _ => false
  end.

(** [v === true] *)
Definition strict_eq_true (v : value) : bool :=
  match v with
  | VBool true => true
  | _ => false
  end.

(** [v != null] *)
Definition not_nullish (v : value) : bool :=
  match v with
  | VUndefined | VNull => false
  | _ => true
  end.

(** [a || b] *)
Definition js_or (a b : value) : value := if truthy a then a else b.

(** [Math.round] on a finite number. *)
Definition Math_round (q : Q) : Z := Qfloor (q + (1 # 2)).

(* ------------------------------------------------------------------ *)
(** ** Strings *)

Definition lower_ascii (c : ascii) : ascii :=
  let n := nat_of_ascii c in
  if (65 <=? n)%nat && (n <=? 90)%nat then ascii_of_nat (n + 32) else c.

Fixpoint toLowerCase (s : string) : string :=
  match s with
  | EmptyString => EmptyString
  | String c r => String (lower_ascii c) (toLowerCase r)
  end.

(** [s.includes(p)] *)
Fixpoint includes (s p : string) : bool :=
  if String.prefix p s then true
  else match s with
       | EmptyString => false
       | String _ r => includes r p
       end.

(* ------------------------------------------------------------------ *)
(** ** Errors *)

Inductive error :=
| ResizeError (message : string)
| HostError (tag : string).

Inductive result (A : Type) :=
| Ok (a : A)
| Err (e : error).
Arguments Ok {A} a.
Arguments Err {A} e.

(* ------------------------------------------------------------------ *)
(** ** Drawables, sources, canvases *)

(** What [getImageDimensions] and [isDrawable] tell apart with
    [instanceof]; the last case covers canvases and bitmaps, whose [width]
    and [height] are numbers. *)
Inductive drawable :=
| HTMLImageElement (naturalWidth naturalHeight : Z)
| HTMLVideoElement (videoWidth videoHeight : Z)
| VideoFrame (displayWidth displayHeight : Z)
| CanvasLike (width height : Z).

(** The caller's image source, as [validateImageAndMakeDrawable] sorts it
    (index.js:618-656). *)
Inductive source :=
| SNullish
| SDrawable (d : drawable)
| SBlob (size : Z) (data : string)
| SImageData (w h : Z)
| SString (s : string)
| SOther.

(** The quotients of [getBlurredImage] divide by the rounded [fit.iw] and
    [fit.ih], which can be zero: there a number may be infinite. *)
Inductive xnumber :=
| XNaN
| XFin (q : Q)
| XInf (negative : bool).

(** What [drawImage] is handed: the caller's drawable, or the temporary
    canvas of [getBlurredImage] (source-sized, drawn through a blur filter). *)
Inductive picture :=
| Original (img : drawable)
| Blurred (img : drawable) (w h : Z) (steps : xnumber).

Inductive drawOp :=
| SetImageSmoothingQuality (q : string)
| FillRect (fillStyle : value) (x y w h : Z)
| DrawImage (src : picture) (x y w h : Z).

Record Canvas := {
  canvas_width : Z;
  canvas_height : Z;
  context_alpha : bool;
  drawn : list drawOp
}.

(* ------------------------------------------------------------------ *)
(** ** The host *)

(** [Number(s)] on a string, the feature tests ([typeof ... !== UNDEF]),
    the canvas encoder ([None] is the [null] handed to the [toBlob]
    callback), the bitmap factory, object URLs and the image loader ([None]
    is [onerror], otherwise the natural size of the loaded image). *)
Class Host := {
  Blob : Type;
  StringToNumber : string -> number;
  hasImageSmoothingQuality : bool;
  hasFilter : bool;
  hasOffscreenCanvas : bool;
  hasCreateImageBitmap : bool;
  toBlob : Canvas -> value -> Q -> option Blob;
  createImageBitmap : source -> result drawable;
  createObjectURL : string -> string;
  loadImage : string -> option (Z * Z)
}.

(* ------------------------------------------------------------------ *)
(** ** Gravity helpers (index.js:228-256) *)

Definition getYGravity (gravity : value) : Z :=
  match gravity with
  | VString g =>
      let g := toLowerCase g in
      if includes g "north" || includes g "top" then -1
      else if includes g "south" || includes g "bottom" then 1
      else 0
  | _ => 0
  end.

Definition getXGravity (gravity : value) : Z :=
  match gravity with
  | VString g =>
      let g := toLowerCase g in
      if includes g "east" || includes g "left" then -1
      else if includes g "west" || includes g "right" then 1
      else 0
  | _ => 0
  end.

(** index.js:275-277 *)
Definition typeSupportsAlpha (type : value) : bool :=
  negb (strict_eq_string type "image/jpeg").

(* ------------------------------------------------------------------ *)
(** ** Options *)

(** The options object a caller passes, after the spread [{ ...opts }]: a
    missing key (and a [null] or [undefined] argument) reads as
    [VUndefined]. *)
Record RawOptions := {
  raw_type : value;
  raw_width : value;
  raw_height : value;
  raw_quality : value;
  raw_gravity : value;
  raw_fit : value;
  raw_noEnlarge : value;
  raw_smoothen : value;
  raw_background : value
}.

Definition noOptions : RawOptions :=
  {| raw_type := VUndefined; raw_width := VUndefined; raw_height := VUndefined;
     raw_quality := VUndefined; raw_gravity := VUndefined; raw_fit := VUndefined;
     raw_noEnlarge := VUndefined; raw_smoothen := VUndefined;
     raw_background := VUndefined |}.

(** The object literal returned by [validateOptions] (index.js:287-298). *)
Record Options := {
  type : value;
  alpha : bool;
  width : Z;
  height : Z;
  quality : Q;
  xGravity : Z;
  yGravity : Z;
  fit : string;
  noEnlarge : bool;
  smoothen : bool
}.

(** [opts.background] on the object built by [validateOptions]: the literal
    has no such property, the read evaluates to [undefined]. *)
Definition background (opts : Options) : value := VUndefined.

Definition with_fit (opts : Options) (f : string) : Options :=
  {| type := type opts; alpha := alpha opts; width := width opts; height := height opts;
     quality := quality opts; xGravity := xGravity opts; yGravity := yGravity opts;
     fit := f; noEnlarge := noEnlarge opts; smoothen := smoothen opts |}.

Definition mkOptions (w h : Z) (f : string) (ne : bool) (gx gy : Z) (t : string)
  : Options :=
  {| type := VString t; alpha := typeSupportsAlpha (VString t); width := w; height := h;
     quality := 1; xGravity := gx; yGravity := gy; fit := f; noEnlarge := ne;
     smoothen := false |}.

Section Normalizer.
Context {host : Host}.

Definition Number (v : value) : number :=
  match v with
  | VUndefined => NaN
  | VNull => Num 0
  | VBool true => Num 1
  | VBool false => Num 0
  | VNumber n => n
  | VString s => StringToNumber s
  end.

(** index.js:264-267.  [n != null && Number(n)] is [false] for a nullish
    [n], and [typeof false] is not ['number'].  The result is a finite
    number: an [n] that [Number] turns into an infinity is not covered. *)
Definition parseNumberArg (n : value) (defaultValue : Q) : Q :=
  if not_nullish n then
    match Number n with
    | Num q => q
    | NaN => defaultValue
    end
  else defaultValue.

(** index.js:285-299 *)
Definition validateOptions (opts : RawOptions) : Options :=
  {| type := js_or (raw_type opts) (VString "image/jpeg");
     alpha := typeSupportsAlpha (raw_type opts);
     width := Z.max (Math_round (parseNumberArg (raw_width opts) 0)) 0;
     height := Z.max (Math_round (parseNumberArg (raw_height opts) 0)) 0;
     quality := Qmin (Qmax (parseNumberArg (raw_quality opts) 1) 0) 1;
     xGravity := getYGravity (raw_gravity opts);
     yGravity := getXGravity (raw_gravity opts);
     fit := match raw_fit opts with
            | VString f => if (0 <? Z.of_nat (String.length f)) then toLowerCase f
                           else "stretch"
            | _ => "stretch"
            end;
     noEnlarge := strict_eq_true (raw_noEnlarge opts);
     smoothen := strict_eq_true (raw_smoothen opts) |}.

End Normalizer.

(* ------------------------------------------------------------------ *)
(** ** Fit geometry (index.js:309-397, 568-590) *)

(** [n || 0] on an integer *)
Definition or_zero (n : Z) : Z := if n =? 0 then 0 else n.

Definition getImageDimensions (img : drawable) : Z * Z :=
  match img with
  | HTMLImageElement w h => (w, h)
  | HTMLVideoElement w h => (w, h)
  | VideoFrame w h => (w, h)
  | CanvasLike w h => (or_zero w, or_zero h)
  end.

Record Fit := {
  imageWidth : Z;
  imageHeight : Z;
  cw : Z;
  ch : Z;
  iw : Z;
  ih : Z;
  ix : Z;
  iy : Z
}.

(** [!!x] on a finite number *)
Definition nonzero (x : Q) : bool := negb (Qeq_bool x 0).

(** [a < b] *)
Definition Qlt_bool (a b : Q) : bool := negb (Qle_bool b a).

Definition ICO : string := "image/vnd.microsoft.icon".

Definition dimensionsError : error :=
  ResizeError "Image dimensions could not be determined".

Definition icoError : error :=
  ResizeError "Exceeds max ICO size (256x256)".

(** index.js:318-382: the eight numbers before the size check, from the
    source dimensions [w] x [h] (both non-zero there). *)
Definition fitGeometry (w h : Z) (opts : Options) : Fit :=
  let cw := inject_Z (width opts) in
  let ch := inject_Z (height opts) in
  let iw := inject_Z w in
  let ih := inject_Z h in
  let fit := fit opts in
  (* If width or height are not provided, fill them in using aspect ratio. *)
  let '(cw, ch, fit) :=
    if negb (nonzero cw) || negb (nonzero ch) then
      if nonzero cw then (cw, ((cw / iw) * ih)%Q, "stretch"%string)
      else if nonzero ch then (((ch / ih) * iw)%Q, ch, "stretch"%string)
      else (iw, ih, "stretch"%string)
    else (cw, ch, fit) in
  (* Get canvas and image dimensions. *)
  let '(iw, ih) :=
    if String.eqb fit "outside" || String.eqb fit "cover" then
      let scale := Qmax (cw / iw) (ch / ih) in
      ((iw * scale)%Q, (ih * scale)%Q)
    else if String.eqb fit "inside" || String.eqb fit "contain" then
      let scale := Qmin (cw / iw) (ch / ih) in
      ((iw * scale)%Q, (ih * scale)%Q)
    else (cw, ch) in
  let '(cw, ch) :=
    if String.eqb fit "outside" || String.eqb fit "inside" then (iw, ih)
    else (cw, ch) in
  (* If no enlargement and a dimension is larger, scale image down to fit. *)
  let '(iw, ih, cw, ch) :=
    if noEnlarge opts then
      let scale := Qmin (inject_Z w / iw) (inject_Z h / ih) in
      if Qlt_bool scale 1
      then ((iw * scale)%Q, (ih * scale)%Q, (cw * scale)%Q, (ch * scale)%Q)
      else (iw, ih, cw, ch)
    else (iw, ih, cw, ch) in
  (* Get offsets. *)
  let ix := ((cw - iw) * (1 # 2) * (inject_Z (xGravity opts) + 1))%Q in
  let iy := ((ch - ih) * (1 # 2) * (inject_Z (yGravity opts) + 1))%Q in
  (* Round values. *)
  {| imageWidth := w; imageHeight := h;
     cw := Math_round cw; ch := Math_round ch;
     iw := Math_round iw; ih := Math_round ih;
     ix := Math_round ix; iy := Math_round iy |}.

(** index.js:309-397 *)
Definition validateImageFit (img : drawable) (opts : Options) : result Fit :=
  let '(w, h) := getImageDimensions img in
  if (w =? 0) || (h =? 0) then Err dimensionsError
  else
    let f := fitGeometry w h opts in
    if strict_eq_string (type opts) ICO && ((256 <? cw f) || (256 <? ch f))
    then Err icoError
    else Ok f.

(** *** The phases of [fitGeometry], named for the proofs
    ([fitGeometry_phases] below puts them back together). *)

(** index.js:326-336 *)
Definition fillMissing (w h : Z) (opts : Options) : Q * Q * string :=
  let cw := inject_Z (width opts) in
  let ch := inject_Z (height opts) in
  let iw := inject_Z w in
  let ih := inject_Z h in
  if negb (nonzero cw) || negb (nonzero ch) then
    if nonzero cw then (cw, ((cw / iw) * ih)%Q, "stretch"%string)
    else if nonzero ch then (((ch / ih) * iw)%Q, ch, "stretch"%string)
    else (iw, ih, "stretch"%string)
  else (cw, ch, fit opts).

(** index.js:340-351 *)
Definition placedSize (w h : Z) (cw ch : Q) (fit : string) : Q * Q :=
  let iw := inject_Z w in
  let ih := inject_Z h in
  if String.eqb fit "outside" || String.eqb fit "cover" then
    let scale := Qmax (cw / iw) (ch / ih) in
    ((iw * scale)%Q, (ih * scale)%Q)
  else if String.eqb fit "inside" || String.eqb fit "contain" then
    let scale := Qmin (cw / iw) (ch / ih) in
    ((iw * scale)%Q, (ih * scale)%Q)
  else (cw, ch).

(** index.js:352-355 *)
Definition snapCanvas (fit : string) (iw ih cw ch : Q) : Q * Q :=
  if String.eqb fit "outside" || String.eqb fit "inside" then (iw, ih)
  else (cw, ch).

(** index.js:359-367 *)
Definition shrinkToSource (w h : Z) (ne : bool) (iw ih cw ch : Q) : Q * Q * Q * Q :=
  if ne then
    let scale := Qmin (inject_Z w / iw) (inject_Z h / ih) in
    if Qlt_bool scale 1
    then ((iw * scale)%Q, (ih * scale)%Q, (cw * scale)%Q, (ch * scale)%Q)
    else (iw, ih, cw, ch)
  else (iw, ih, cw, ch).

(** index.js:371-372 *)
Definition offset (c i : Q) (g : Z) : Q := ((c - i) * (1 # 2) * (inject_Z g + 1))%Q.

(** The fit strings that scale both axes by one factor. *)
Definition uniformFit (f : string) : bool :=
  String.eqb f "outside" || String.eqb f "cover"
  || String.eqb f "inside" || String.eqb f "contain".

(** [noEnlarge] leaves a Contain or Cover placement alone: it is off, or
    the placed image is no larger than the source. *)
Definition keepsPlacedSize (opts : Options) (w h : Z) : Prop :=
  noEnlarge opts = false
  \/ (fit opts = "contain"%string /\ (width opts <= w \/ height opts <= h))
  \/ (fit opts = "cover"%string /\ width opts <= w /\ height opts <= h).

(* ------------------------------------------------------------------ *)
(** ** Rendering (index.js:408-521) *)

(** [a / b] on integers *)
Definition xdiv (a b : Z) : xnumber :=
  if b =? 0 then (if a =? 0 then XNaN else XInf (a <? 0))
  else XFin (inject_Z a / inject_Z b).

(** [Math.min(a, b)] *)
Definition xmin (a b : xnumber) : xnumber :=
  match a, b with
  | XNaN, _ | _, XNaN => XNaN
  | XInf true, _ | _, XInf true => XInf true
  | XInf false, y => y
  | x, XInf false => x
  | XFin p, XFin q => XFin (Qmin p q)
  end.

(** [(m - 1) * 0.375] *)
Definition blurSteps (m : xnumber) : xnumber :=
  match m with
  | XFin q => XFin ((q - 1) * (3 # 8))
  | other => other
  end.

(** [steps <= 0] *)
Definition xle0 (s : xnumber) : bool :=
  match s with
  | XNaN => false
  | XFin q => Qle_bool q 0
  | XInf negative => negative
  end.

(** index.js:408-426 *)
Definition getBlurredImage (img : drawable) (fit : Fit) (opts : Options) : picture :=
  let steps :=
    blurSteps (xmin (xdiv (imageWidth fit) (iw fit)) (xdiv (imageHeight fit) (ih fit))) in
  if xle0 steps then Original img
  else Blurred img (imageWidth fit) (imageHeight fit) steps.

(** index.js:434-440 *)
Definition getSteppedImage (img : drawable) (fit : Fit) (opts : Options) : picture :=
  Original img.

(** index.js:492-503 *)
Definition loadImageDataIntoCanvas (w h : Z) (opts : Options) : drawable :=
  CanvasLike w h.

Section Rendering.
Context {host : Host}.

(** index.js:449-484 *)
Definition renderToCanvas (img : drawable) (fit : Fit) (opts : Options) : Canvas :=
  let smoothing :=
    if smoothen opts then
      if hasImageSmoothingQuality then [SetImageSmoothingQuality "high"] else []
    else [] in
  let img' :=
    if smoothen opts then
      if hasFilter then getBlurredImage img fit opts
      else getSteppedImage img fit opts
    else Original img in
  let fill :=
    if truthy (background opts)
    then [FillRect (background opts) 0 0 (cw fit) (ch fit)]
    else [] in
  {| canvas_width := cw fit;
     canvas_height := ch fit;
     context_alpha := alpha opts;
     drawn := smoothing ++ fill ++ [DrawImage img' (ix fit) (iy fit) (iw fit) (ih fit)] |}.

(** index.js:511-521 *)
Definition getBlobFromCanvas (canvasEl : Canvas) (type : value) (quality : Q)
  : result Blob :=
  match toBlob canvasEl type quality with
  | Some blob => Ok blob
  | None => Err (ResizeError "Could not create Blob")
  end.

(** index.js:529-545 *)
Definition loadUrlIntoImage (url : string) : result drawable :=
  match loadImage url with
  | Some (w, h) =>
      if (0 <? w) && (0 <? h) then Ok (HTMLImageElement w h)
      else Err (ResizeError "Image is empty")
  | None => Err (ResizeError "Image could not be loaded")
  end.

(** index.js:553-560 *)
Definition loadBlobIntoImage (data : string) : result drawable :=
  loadUrlIntoImage (createObjectURL data).

(** index.js:618-656 *)
Definition validateImageAndMakeDrawable (img : source) (opts : Options)
  : result drawable :=
  match img with
  | SNullish => Err (ResizeError "Image is required")
  | SDrawable d => Ok d
  | SBlob size data =>
      if size =? 0 then Err (ResizeError "Blob is empty")
      else if hasCreateImageBitmap then createImageBitmap img
      else loadBlobIntoImage data
  | SImageData w h =>
      if hasCreateImageBitmap then createImageBitmap img
      else Ok (loadImageDataIntoCanvas w h opts)
  | SString s =>
      if (0 <? Z.of_nat (String.length s)) then loadUrlIntoImage s
      else Err (ResizeError "Image is required")
  | SOther => Err (ResizeError "Cannot make drawable")
  end.

End Rendering.

(* ------------------------------------------------------------------ *)
(** ** The worker channel and the public operation (index.js:109-220, 665-687) *)

Inductive Worker := WorkerHandle.

(** What is done to the worker side, in order. *)
Inductive event :=
| WorkerSpawned
| TestPosted
| RenderPosted (id : Z)
| BitmapClosed.

(** [_worker], [_workerError], [_messageId] (index.js:109-110, 175), and the
    events so far. *)
Record State := {
  _worker : option Worker;
  _workerError : option error;
  _messageId : Z;
  log : list event
}.

Definition initialState : State :=
  {| _worker := None; _workerError := None; _messageId := 0; log := [] |}.

Definition set_worker (w : Worker) (s : State) : State :=
  {| _worker := Some w; _workerError := _workerError s;
     _messageId := _messageId s; log := log s |}.

Definition set_workerError (e : error) (s : State) : State :=
  {| _worker := _worker s; _workerError := Some e;
     _messageId := _messageId s; log := log s |}.

Definition set_messageId (n : Z) (s : State) : State :=
  {| _worker := _worker s; _workerError := _workerError s;
     _messageId := n; log := log s |}.

Definition record (e : event) (s : State) : State :=
  {| _worker := _worker s; _workerError := _workerError s;
     _messageId := _messageId s; log := log s ++ [e] |}.

(** A computation that reads and writes the module state and may throw. *)
Definition M (A : Type) : Type := State -> result A * State.

Definition ret {A} (a : A) : M A := fun s => (Ok a, s).

Definition throw {A} (e : error) : M A := fun s => (Err e, s).

Definition bind {A B} (m : M A) (k : A -> M B) : M B :=
  fun s => match m s with
           | (Ok a, s') => k a s'
           | (Err e, s') => (Err e, s')
           end.

Definition get : M State := fun s => (Ok s, s).

Definition modify (f : State -> State) : M unit := fun s => (Ok tt, f s).

Definition lift {A} (r : result A) : M A := fun s => (r, s).

(** [try { body } catch (err) { handler }] *)
Definition try_catch {A} (body : M A) (handler : error -> M A) : M A :=
  fun s => match body s with
           | (Ok a, s') => (Ok a, s')
           | (Err e, s') => handler e s'
           end.

(** [try { body } finally { cleanup }] *)
Definition try_finally {A} (body : M A) (cleanup : M unit) : M A :=
  fun s => match body s with
           | (r, s') => match cleanup s' with
                        | (Ok _, s'') => (r, s'')
                        | (Err e, s'') => (Err e, s'')
                        end
           end.

(** [throw e] when the host reports [e], nothing otherwise *)
Definition fails (o : option error) : M unit :=
  match o with
  | Some e => throw e
  | None => ret tt
  end.

Definition isSome {A} (o : option A) : bool :=
  match o with
  | Some _ => true
  | None => false
  end.

Declare Scope js_scope.
Delimit Scope js_scope with js.
Notation "x <- m ;; k" := (bind m (fun x => k))
  (at level 61, m at next level, right associativity) : js_scope.
Notation "m ;; k" := (bind m (fun _ => k))
  (at level 61, right associativity) : js_scope.

(** The state of the channel that the three variables encode. *)
Inductive Channel :=
| Uninitialized
| Ready (handle : Worker)
| PermanentlyFailed (e : error).

Definition channel (s : State) : Channel :=
  match _workerError s, _worker s with
  | Some e, _ => PermanentlyFailed e
  | None, Some w => Ready w
  | None, None => Uninitialized
  end.

(** How many times [createWebWorker] was called. *)
Definition spawns (l : list event) : nat :=
  List.length
    (List.filter (fun e => match e with WorkerSpawned => true | _ => false end) l).

Section Pipeline.
Context {host : Host}.
Local Open Scope js_scope.

(** What the worker side does during one call: whether [createWebWorker]
    throws, whether the self-test is answered or an [error] event arrives,
    whether [createImageBitmap] rejects, and the reply to the render
    message. *)
Record Outcome := {
  spawn : option error;
  probe : option error;
  bitmap : option error;
  response : result Blob
}.

(** index.js:111-166.  The value returned on the last branch is the
    [_worker] just assigned. *)
Definition loadWebWorker (o : Outcome) : M Worker :=
  s <- get ;;
  if isSome (_workerError s) then throw (ResizeError "Worker is not loaded")
  else match _worker s with
       | Some worker => ret worker
       | None =>
           try_catch
             (modify (record WorkerSpawned) ;;
              fails (spawn o) ;;
              modify (set_worker WorkerHandle) ;;
              modify (record TestPosted) ;;
              fails (probe o) ;;
              ret WorkerHandle)
             (fun err => modify (set_workerError err) ;; throw err)
       end.

(** index.js:176-220 *)
Definition renderToBlobWithOffscreenCanvas
  (img : drawable) (fit : Fit) (opts : Options) (o : Outcome) : M Blob :=
  worker <- loadWebWorker o ;;
  fails (bitmap o) ;;
  try_finally
    (s <- get ;;
     let id := _messageId s in
     modify (set_messageId (id + 1)) ;;
     modify (record (RenderPosted id)) ;;
     lift (response o))
    (modify (record BitmapClosed)).

(** index.js:665-687 *)
Definition resizeImageToBlob (img : source) (opts : RawOptions) (o : Outcome)
  : M Blob :=
  let opts := validateOptions opts in
  img <- lift (validateImageAndMakeDrawable img opts) ;;
  fit <- lift (validateImageFit img opts) ;;
  s <- get ;;
  offscreen <-
    (if hasOffscreenCanvas && negb (isSome (_workerError s)) then
       try_catch
         (blob <- renderToBlobWithOffscreenCanvas img fit opts o ;; ret (Some blob))
         (fun err => ret None)
     else ret None) ;;
  match offscreen with
  | Some blob => ret blob
  | None =>
      let canvasEl := renderToCanvas img fit opts in
      lift (getBlobFromCanvas canvasEl (type opts) (quality opts))
  end.

(** The direct strategy alone: the pipeline of [resizeImageToBlob] without
    the attempt on the worker. *)
Definition resizeDirect (img : source) (opts : RawOptions) : result Blob :=
  let opts := validateOptions opts in
  match validateImageAndMakeDrawable img opts with
  | Err e => Err e
  | Ok img =>
      match validateImageFit img opts with
      | Err e => Err e
      | Ok fit =>
          getBlobFromCanvas (renderToCanvas img fit opts) (type opts) (quality opts)
      end
  end.

(** Successive calls, each run to completion before the next. *)
Fixpoint calls (l : list (source * RawOptions * Outcome)) (s : State) : State :=
  match l with
  | [] => s
  | (img, opts, o) :: rest => calls rest (snd (resizeImageToBlob img opts o s))
  end.

End Pipeline.

(* ------------------------------------------------------------------ *)
(** ** A host and inputs to evaluate on *)

(** A browser with every feature, whose encoder writes the canvas size and
    whose loaders find nothing. *)
Definition fullHost : Host :=
  {| Blob := Z * Z;
     StringToNumber := fun _ => NaN;
     hasImageSmoothingQuality := true;
     hasFilter := true;
     hasOffscreenCanvas := true;
     hasCreateImageBitmap := true;
     toBlob := fun c _ _ => Some (canvas_width c, canvas_height c);
     createImageBitmap := fun _ => Err (HostError "InvalidStateError");
     createObjectURL := fun s => s;
     loadImage := fun _ => None |}.

(** [{ width: w, height: h, fit: f, gravity: g, background: b }] *)
Definition rawOptions (w h : Z) (f g b : value) : RawOptions :=
  {| raw_type := VUndefined;
     raw_width := VNumber (Num (inject_Z w));
     raw_height := VNumber (Num (inject_Z h));
     raw_quality := VUndefined; raw_gravity := g; raw_fit := f;
     raw_noEnlarge := VUndefined; raw_smoothen := VUndefined;
     raw_background := b |}.

(** The worker answers the self-test and then fails the render. *)
Definition renderFails : Outcome (host := fullHost) :=
  {| spawn := None; probe := None; bitmap := None;
     response := Err (HostError "DataCloneError") |}.


(** The worker renders a 1x1 blob. *)
Definition renders : Outcome (host := fullHost) :=
  {| spawn := None; probe := None; bitmap := None; response := Ok ((1, 1) : @Blob fullHost) |}.

Definition picture200x100 : source := SDrawable (HTMLImageElement 200 100).

Definition contain100 : RawOptions :=
  rawOptions 100 100 (VString "contain") VUndefined VUndefined.

(* ------------------------------------------------------------------ *)
(** ** Notions the further properties are stated with *)

(** [p] occurs in [s]. *)
Definition occurs (p s : string) : Prop :=
  exists a b : string, s = (a ++ p ++ b)%string.

(** A value that [parseNumberArg] replaces by its default: [null],
    [undefined], or one that [Number] turns into [NaN]. *)
Definition unusable {host : Host} (v : value) : Prop :=
  not_nullish v = false \/ Number v = NaN.

Definition with_noEnlarge (opts : Options) (b : bool) : Options :=
  {| type := type opts; alpha := alpha opts; width := width opts; height := height opts;
     quality := quality opts; xGravity := xGravity opts; yGravity := yGravity opts;
     fit := fit opts; noEnlarge := b; smoothen := smoothen opts |}.

(** The render ids posted to the worker, oldest first. *)
Fixpoint postedIds (l : list event) : list Z :=
  match l with
  | [] => []
  | RenderPosted id :: r => id :: postedIds r
  | _ :: r => postedIds r
  end.

(** How many bitmaps were closed. *)
Fixpoint closes (l : list event) : nat :=
  match l with
  | [] => O
  | BitmapClosed :: r => S (closes r)
  | _ :: r => closes r
  end.

(* ------------------------------------------------------------------ *)
(** ** The script run by the worker (index.js:21-87) *)

(** [steps > 0] *)
Definition xgt0 (s : xnumber) : bool :=
  match s with
  | XNaN => false
  | XFin q => Qlt_bool 0 q
  | XInf negative => negb negative
  end.

(** A message to the worker: the self-test of [loadWebWorker], or a render
    request carrying a bitmap (known by its size), the geometry and the
    options. *)
Inductive WorkerRequest :=
| TestRequest (id : value)
| RenderRequest (id : value) (width height : Z) (fit : Fit) (opts : Options).

(** What the script posts back. *)
Inductive WorkerReply (B : Type) :=
| ReplyTest (id : value)
| ReplyResult (id : value) (result : B)
| ReplyError (id : value) (err : error).
Arguments ReplyTest {B} id.
Arguments ReplyResult {B} id result.
Arguments ReplyError {B} id err.

Section WorkerScript.
Context {host : Host}.

(** Inside the worker: the feature tests on the context of an
    [OffscreenCanvas], and its encoder. *)
Variable offscreenHasImageSmoothingQuality : bool.
Variable offscreenHasFilter : bool.
Variable convertToBlob : Canvas -> value -> Q -> result Blob.

(** index.js:41-67: the canvas the script draws, or the exception of the
    [try] block ([args] is not defined in the script). *)
Definition workerCanvas (width height : Z) (fit : Fit) (opts : Options)
  : result Canvas :=
  let img := CanvasLike width height in
  let smoothing :=
    if smoothen opts then
      if offscreenHasImageSmoothingQuality then [SetImageSmoothingQuality "high"]
      else []
    else [] in
  let img' :=
    if smoothen opts then
      if offscreenHasFilter then
        let steps := blurSteps (xmin (xdiv width (iw fit)) (xdiv height (ih fit))) in
        if xgt0 steps then Blurred img width height steps else Original img
      else Original img
    else Original img in
  if truthy (background opts) then Err (HostError "ReferenceError")
  else
    Ok {| canvas_width := cw fit;
          canvas_height := ch fit;
          context_alpha := alpha opts;
          drawn := smoothing ++ [DrawImage img' (ix fit) (iy fit) (iw fit) (ih fit)] |}.

(** index.js:26-86 *)
Definition workerScript (msg : WorkerRequest) : WorkerReply Blob :=
  match msg with
  | TestRequest id => ReplyTest id
  | RenderRequest id width height fit opts =>
      match workerCanvas width height fit opts with
      | Err err => ReplyError id err
      | Ok canvasEl =>
          match convertToBlob canvasEl (type opts) (quality opts) with
          | Ok blob => ReplyResult id blob
          | Err err => ReplyError id err
          end
      end
  end.

End WorkerScript.

(* ------------------------------------------------------------------ *)
(** ** More inputs to evaluate on *)

(** [{ width: 300, height: 300, type: 'image/vnd.microsoft.icon' }], the
    options of the test named Large ICO. *)
Definition largeIco : RawOptions :=
  {| raw_type := VString ICO;
     raw_width := VNumber (Num 300); raw_height := VNumber (Num 300);
     raw_quality := VUndefined; raw_gravity := VUndefined; raw_fit := VUndefined;
     raw_noEnlarge := VUndefined; raw_smoothen := VUndefined;
     raw_background := VUndefined |}.

(** A browser without [createImageBitmap] and without [OffscreenCanvas],
    whose loader finds a 640x480 image behind every URL. *)
Definition plainHost : Host :=
  {| Blob := Z * Z;
     StringToNumber := fun _ => NaN;
     hasImageSmoothingQuality := false;
     hasFilter := false;
     hasOffscreenCanvas := false;
     hasCreateImageBitmap := false;
     toBlob := fun c _ _ => Some (canvas_width c, canvas_height c);
     createImageBitmap := fun _ => Err (HostError "TypeError");
     createObjectURL := fun s => s;
     loadImage := fun _ => Some (640, 480) |}.

(** The channel after a failed bootstrap. *)
Definition failedState : State :=
  {| _worker := None; _workerError := Some (HostError "SecurityError");
     _messageId := 0; log := [WorkerSpawned] |}.

(** A 200x100 source placed at half its size. *)
Definition halved : Fit :=
  {| imageWidth := 200; imageHeight := 100; cw := 100; ch := 50;
     iw := 100; ih := 50; ix := 0; iy := 0 |}.


(* ------------------------------------------------------------------ *)
(** * Rounding and rational arithmetic *)

Section RoundFacts.
Local Open Scope Q_scope.

Lemma Math_round_comp (a b : Q) : a == b -> Math_round a = Math_round b.
Proof. intros E. unfold Math_round. now rewrite E. Qed.

Lemma Math_round_inject_Z (z : Z) : Math_round (inject_Z z) = z.
Proof.
  unfold Math_round.
  assert (L : (z <= Qfloor (inject_Z z + (1 # 2)))%Z).
  { rewrite <- (Qfloor_Z z) at 1. apply Qfloor_resp_le. lra. }
  assert (U : (Qfloor (inject_Z z + (1 # 2)) < z + 1)%Z).
  { rewrite Zlt_Qlt. eapply Qle_lt_trans; [apply Qfloor_le|].
    rewrite inject_Z_plus. change (inject_Z 1) with 1. lra. }
  lia.
Qed.

Lemma Math_round_mono (a b : Q) : a <= b -> (Math_round a <= Math_round b)%Z.
Proof. intros L. apply Qfloor_resp_le. lra. Qed.

Lemma Math_round_le_Z (a : Q) (z : Z) : a <= inject_Z z -> (Math_round a <= z)%Z.
Proof. intros L. rewrite <- (Math_round_inject_Z z). now apply Math_round_mono. Qed.

Lemma Qdiv_pos (a b : Q) : 0 < a -> 0 < b -> 0 < a / b.
Proof.
  intros A B. unfold Qdiv. apply Qmult_lt_0_compat; [assumption|].
  now apply Qinv_lt_0_compat.
Qed.

Lemma Qmin_pos (a b : Q) : 0 < a -> 0 < b -> 0 < Qmin a b.
Proof. intros A B. destruct (Q.min_spec a b) as [[_ E]|[_ E]]; rewrite E; assumption. Qed.

Lemma Qmax_pos (a b : Q) : 0 < a -> 0 < b -> 0 < Qmax a b.
Proof. intros A B. destruct (Q.max_spec a b) as [[_ E]|[_ E]]; rewrite E; assumption. Qed.

Lemma Qlt_bool_iff (a b : Q) : Qlt_bool a b = true <-> a < b.
Proof.
  unfold Qlt_bool. rewrite negb_true_iff. split.
  - intros H. apply Qnot_le_lt. intros L. apply Qle_bool_iff in L. congruence.
  - intros L. destruct (Qle_bool b a) eqn:E; [|reflexivity].
    apply Qle_bool_iff in E. lra.
Qed.

Lemma nonzero_inject_Z (z : Z) : nonzero (inject_Z z) = negb (z =? 0)%Z.
Proof.
  unfold nonzero. f_equal. destruct (Z.eqb_spec z 0) as [->|N].
  - reflexivity.
  - destruct (Qeq_bool (inject_Z z) 0) eqn:E; [|reflexivity].
    apply Qeq_bool_iff in E. unfold Qeq in E. simpl in E. lia.
Qed.

Lemma Math_round_upper (x : Q) : inject_Z (Math_round x) <= x + (1 # 2).
Proof. apply Qfloor_le. Qed.

Lemma Math_round_lower (x : Q) : x - (1 # 2) < inject_Z (Math_round x).
Proof.
  pose proof (Qlt_floor (x + (1 # 2))) as L. unfold Math_round.
  rewrite inject_Z_plus in L. change (inject_Z 1) with 1 in L. lra.
Qed.

Lemma inject_Z_sub (a b : Z) : inject_Z (a - b) == inject_Z a - inject_Z b.
Proof. unfold Z.sub. rewrite inject_Z_plus, inject_Z_opp. ring. Qed.


End RoundFacts.

(* ------------------------------------------------------------------ *)
(** * The phases of the fit geometry *)

Lemma fitGeometry_phases (w h : Z) (opts : Options) :
  fitGeometry w h opts =
  let '(cw0, ch0, fit) := fillMissing w h opts in
  let '(iw1, ih1) := placedSize w h cw0 ch0 fit in
  let '(cw1, ch1) := snapCanvas fit iw1 ih1 cw0 ch0 in
  let '(iw2, ih2, cw2, ch2) := shrinkToSource w h (noEnlarge opts) iw1 ih1 cw1 ch1 in
  {| imageWidth := w; imageHeight := h;
     cw := Math_round cw2; ch := Math_round ch2;
     iw := Math_round iw2; ih := Math_round ih2;
     ix := Math_round (offset cw2 iw2 (xGravity opts));
     iy := Math_round (offset ch2 ih2 (yGravity opts)) |}.
Proof. reflexivity. Qed.

Section PhaseFacts.
Local Open Scope Q_scope.

Lemma Qmul_le_of_le_div (i s x : Q) : 0 < i -> s <= x / i -> i * s <= x.
Proof.
  intros I L.
  assert (E : i * (x / i) == x) by (apply Qmult_div_r; lra).
  rewrite <- E. apply Qmult_le_l; assumption.
Qed.

Lemma inject_Z_pos (z : Z) : (0 < z)%Z -> 0 < inject_Z z.
Proof. intros H. change 0 with (inject_Z 0). now rewrite <- Zlt_Qlt. Qed.

Lemma fillMissing_pos (w h : Z) (opts : Options) (c d : Q) (f : string) :
  (0 < w)%Z -> (0 < h)%Z -> (0 <= width opts)%Z -> (0 <= height opts)%Z ->
  fillMissing w h opts = (c, d, f) -> 0 < c /\ 0 < d.
Proof.
  intros W H TW TH. unfold fillMissing. rewrite !nonzero_inject_Z.
  pose proof (inject_Z_pos w W) as Wq. pose proof (inject_Z_pos h H) as Hq.
  destruct (Z.eqb_spec (width opts) 0) as [E1|N1];
    destruct (Z.eqb_spec (height opts) 0) as [E2|N2]; cbn [negb orb];
    intros [= <- <- <-].
  - split; assumption.
  - assert (0 < inject_Z (height opts)) by (apply inject_Z_pos; lia).
    split; [|assumption].
    apply Qmult_lt_0_compat; [apply Qdiv_pos|]; assumption.
  - assert (0 < inject_Z (width opts)) by (apply inject_Z_pos; lia).
    split; [assumption|].
    apply Qmult_lt_0_compat; [apply Qdiv_pos|]; assumption.
  - split; apply inject_Z_pos; lia.
Qed.

Lemma placedSize_pos (w h : Z) (c d : Q) (f : string) (i j : Q) :
  (0 < w)%Z -> (0 < h)%Z -> 0 < c -> 0 < d ->
  placedSize w h c d f = (i, j) -> 0 < i /\ 0 < j.
Proof.
  intros W H C D. unfold placedSize.
  pose proof (inject_Z_pos w W) as Wq. pose proof (inject_Z_pos h H) as Hq.
  assert (0 < c / inject_Z w) by now apply Qdiv_pos.
  assert (0 < d / inject_Z h) by now apply Qdiv_pos.
  destruct (_ || _).
  - intros [= <- <-]. split; apply Qmult_lt_0_compat; auto using Qmax_pos.
  - destruct (_ || _); intros [= <- <-].
    + split; apply Qmult_lt_0_compat; auto using Qmin_pos.
    + split; assumption.
Qed.

Lemma shrinkToSource_bound (w h : Z) (i j c d i' j' c' d' : Q) :
  0 < i -> 0 < j ->
  shrinkToSource w h true i j c d = (i', j', c', d') ->
  i' <= inject_Z w /\ j' <= inject_Z h.
Proof.
  intros I J. unfold shrinkToSource.
  set (s := Qmin (inject_Z w / i) (inject_Z h / j)).
  assert (L1 : s <= inject_Z w / i) by apply Q.le_min_l.
  assert (L2 : s <= inject_Z h / j) by apply Q.le_min_r.
  destruct (Qlt_bool s 1) eqn:B; intros [= <- <- <- <-].
  - split; apply Qmul_le_of_le_div; assumption.
  - assert (S1 : 1 <= s).
    { apply Qnot_lt_le. intros L. apply Qlt_bool_iff in L. congruence. }
    split.
    + setoid_replace i with (i * 1) by ring. apply Qmul_le_of_le_div; [assumption|lra].
    + setoid_replace j with (j * 1) by ring. apply Qmul_le_of_le_div; [assumption|lra].
Qed.

End PhaseFacts.

(** C7.  With [noEnlarge] set, for a source of positive dimensions, any fit
    string and any target size, the rounded placed-image size is within the
    source size: [iw <= width] and [ih <= height] of the source.  The only
    way the resolution does not return is the ICO size cap. *)
Theorem noEnlarge_never_enlarges (img : drawable) (opts : Options) (w h : Z) :
  getImageDimensions img = (w, h) ->
  0 < w -> 0 < h -> 0 <= width opts -> 0 <= height opts ->
  noEnlarge opts = true ->
  match validateImageFit img opts with
  | Ok g => iw g <= w /\ ih g <= h
  | Err e => e = icoError
  end.
Proof.
  intros D W H TW TH NE. unfold validateImageFit. rewrite D.
  destruct (Z.eqb_spec w 0); [lia|]. destruct (Z.eqb_spec h 0); [lia|]. cbn [orb].
  destruct (_ && _); [reflexivity|].
  rewrite fitGeometry_phases.
  destruct (fillMissing w h opts) as [[c0 d0] f] eqn:E1.
  destruct (placedSize w h c0 d0 f) as [i1 j1] eqn:E2.
  destruct (snapCanvas f i1 j1 c0 d0) as [c1 d1] eqn:E3.
  rewrite NE.
  destruct (shrinkToSource w h true i1 j1 c1 d1) as [[[i2 j2] c2] d2] eqn:E4.
  cbn [iw ih].
  destruct (fillMissing_pos _ _ _ _ _ _ W H TW TH E1) as [C0 D0].
  destruct (placedSize_pos _ _ _ _ _ _ _ W H C0 D0 E2) as [I1 J1].
  destruct (shrinkToSource_bound _ _ _ _ _ _ _ _ _ _ I1 J1 E4) as [B1 B2].
  split; apply Math_round_le_Z; assumption.
Qed.

Section GeometryFacts.
Local Open Scope Q_scope.

Lemma Math_round_offset_same (c : Q) (g : Z) : Math_round (offset c c g) = 0%Z.
Proof.
  rewrite (Math_round_comp (offset c c g) 0); [reflexivity|].
  unfold offset. ring.
Qed.

Lemma shrinkToSource_same (w h : Z) (ne : bool) (i j : Q) :
  exists i' j', shrinkToSource w h ne i j i j = (i', j', i', j').
Proof.
  unfold shrinkToSource. destruct ne; [|eauto].
  destruct (Qlt_bool _ _); eauto.
Qed.

Lemma one_le_div (i x : Q) : 0 < i -> i <= x -> 1 <= x / i.
Proof. intros I L. apply Qle_shift_div_l; [assumption|lra]. Qed.

Lemma shrinkToSource_fits (w h : Z) (ne : bool) (i j c d : Q) :
  0 < i -> 0 < j -> i <= inject_Z w -> j <= inject_Z h ->
  shrinkToSource w h ne i j c d = (i, j, c, d).
Proof.
  intros I J Li Lj. unfold shrinkToSource. destruct ne; [|reflexivity].
  destruct (Qlt_bool _ _) eqn:B; [|reflexivity].
  apply Qlt_bool_iff in B.
  assert (1 <= Qmin (inject_Z w / i) (inject_Z h / j))
    by (apply Q.min_glb; apply one_le_div; assumption).
  lra.
Qed.

Lemma scale_le_one (x s : Q) : 0 < x -> s <= 1 -> x * s <= x.
Proof. intros X S. nra. Qed.

Lemma div_le_one (a b : Q) : 0 < b -> a <= b -> a / b <= 1.
Proof. intros B L. apply Qle_shift_div_r; [assumption|lra]. Qed.

End GeometryFacts.

Section FitModes.
Local Open Scope Q_scope.

Lemma fillMissing_both (w h : Z) (opts : Options) :
  (width opts <> 0)%Z -> (height opts <> 0)%Z ->
  fillMissing w h opts = (inject_Z (width opts), inject_Z (height opts), fit opts).
Proof.
  intros N1 N2. unfold fillMissing. rewrite !nonzero_inject_Z.
  destruct (Z.eqb_spec (width opts) 0); [contradiction|].
  destruct (Z.eqb_spec (height opts) 0); [contradiction|]. reflexivity.
Qed.

Lemma placedSize_fits (w h tw th : Z) (f : string) (i j : Q) :
  (0 < w)%Z -> (0 < h)%Z -> (0 < tw)%Z -> (0 < th)%Z ->
  (f = "contain"%string /\ (tw <= w \/ th <= h)%Z)
  \/ (f = "cover"%string /\ (tw <= w)%Z /\ (th <= h)%Z) ->
  placedSize w h (inject_Z tw) (inject_Z th) f = (i, j) ->
  i <= inject_Z w /\ j <= inject_Z h.
Proof.
  intros W H TW TH C.
  pose proof (inject_Z_pos w W) as Wq. pose proof (inject_Z_pos h H) as Hq.
  assert (A : (tw <= w)%Z -> inject_Z tw / inject_Z w <= 1)
    by (intros L; apply div_le_one; [assumption|now rewrite <- Zle_Qle]).
  assert (B : (th <= h)%Z -> inject_Z th / inject_Z h <= 1)
    by (intros L; apply div_le_one; [assumption|now rewrite <- Zle_Qle]).
  unfold placedSize.
  destruct C as [[-> C]|[-> [C1 C2]]]; cbn [String.eqb Ascii.eqb Bool.eqb orb andb];
    intros [= <- <-]; split; apply scale_le_one; try assumption.
  - destruct C as [C|C]; [eapply Qle_trans; [apply Q.le_min_l|auto]
                         |eapply Qle_trans; [apply Q.le_min_r|auto]].
  - destruct C as [C|C]; [eapply Qle_trans; [apply Q.le_min_l|auto]
                         |eapply Qle_trans; [apply Q.le_min_r|auto]].
  - apply Q.max_lub; auto.
  - apply Q.max_lub; auto.
Qed.

End FitModes.

Lemma validateImageFit_cases (img : drawable) (opts : Options) (w h : Z) :
  getImageDimensions img = (w, h) -> w <> 0 -> h <> 0 ->
  validateImageFit img opts =
  if strict_eq_string (type opts) ICO
     && ((256 <? cw (fitGeometry w h opts)) || (256 <? ch (fitGeometry w h opts)))
  then Err icoError else Ok (fitGeometry w h opts).
Proof.
  intros D W H. unfold validateImageFit. rewrite D.
  destruct (Z.eqb_spec w 0); [contradiction|].
  destruct (Z.eqb_spec h 0); [contradiction|]. reflexivity.
Qed.

(** C5, as amended.  For positive source and target dimensions: with fit
    ["outside"] or ["inside"] the rounded canvas size is the rounded
    placed-image size; with fit ["contain"] or ["cover"] the canvas is the
    requested target size provided [noEnlarge] does not shrink the result
    ([keepsPlacedSize]).  Source 200x100 with 100x100 and ["contain"] gives
    canvas 100x100, image 100x50, offset (0,25); with ["inside"] it gives
    canvas 100x50, image 100x50, offset (0,0). *)
Theorem canvas_snapping :
  (forall (img : drawable) (opts : Options) (w h : Z),
      getImageDimensions img = (w, h) ->
      0 < w -> 0 < h -> 0 < width opts -> 0 < height opts ->
      match validateImageFit img opts with
      | Ok g =>
          (fit opts = "outside"%string \/ fit opts = "inside"%string ->
           cw g = iw g /\ ch g = ih g)
          /\ (fit opts = "contain"%string \/ fit opts = "cover"%string ->
              keepsPlacedSize opts w h ->
              cw g = width opts /\ ch g = height opts)
      | Err e => e = icoError
      end)
  /\ validateImageFit (HTMLImageElement 200 100)
       (mkOptions 100 100 "contain" false 0 0 "image/jpeg")
     = Ok {| imageWidth := 200; imageHeight := 100; cw := 100; ch := 100;
             iw := 100; ih := 50; ix := 0; iy := 25 |}
  /\ validateImageFit (HTMLImageElement 200 100)
       (mkOptions 100 100 "inside" false 0 0 "image/jpeg")
     = Ok {| imageWidth := 200; imageHeight := 100; cw := 100; ch := 50;
             iw := 100; ih := 50; ix := 0; iy := 0 |}.
Proof.
  split; [|split; vm_compute; reflexivity].
  intros img opts w h D W H TW TH.
  rewrite (validateImageFit_cases img opts w h D) by lia.
  destruct (_ && _); [reflexivity|].
  rewrite fitGeometry_phases, fillMissing_both by lia.
  destruct (placedSize w h _ _ (fit opts)) as [i1 j1] eqn:E2.
  split.
  - intros F. assert (S : snapCanvas (fit opts) i1 j1 (inject_Z (width opts))
                            (inject_Z (height opts)) = (i1, j1)).
    { unfold snapCanvas. destruct F as [-> | ->]; reflexivity. }
    rewrite S.
    destruct (shrinkToSource_same w h (noEnlarge opts) i1 j1) as (i2 & j2 & ->).
    cbn [cw ch iw ih]. split; reflexivity.
  - intros F K.
    assert (S : snapCanvas (fit opts) i1 j1 (inject_Z (width opts))
                  (inject_Z (height opts))
                = (inject_Z (width opts), inject_Z (height opts))).
    { unfold snapCanvas. destruct F as [-> | ->]; reflexivity. }
    rewrite S.
    assert (R : shrinkToSource w h (noEnlarge opts) i1 j1 (inject_Z (width opts))
                  (inject_Z (height opts))
                = (i1, j1, inject_Z (width opts), inject_Z (height opts))).
    { destruct K as [K|K].
      - unfold shrinkToSource. rewrite K. reflexivity.
      - destruct (placedSize_pos w h _ _ _ _ _ W H
                    (inject_Z_pos _ TW) (inject_Z_pos _ TH) E2) as [I1 J1].
        destruct (placedSize_fits w h _ _ _ _ _ W H TW TH K E2).
        apply shrinkToSource_fits; assumption. }
    rewrite R. cbn [cw ch]. rewrite !Math_round_inject_Z. split; reflexivity.
Qed.

(** C5 as stated fails: source 50x50, target 100x100, fit ["contain"] and
    [noEnlarge] resolve to a 50x50 canvas, not the requested 100x100. *)
Lemma contain_canvas_shrunk :
  exists g, validateImageFit (HTMLImageElement 50 50)
              (mkOptions 100 100 "contain" true 0 0 "image/jpeg") = Ok g
            /\ cw g <> 100 /\ ch g <> 100.
Proof. eexists. split; [vm_compute; reflexivity|]. cbn. split; discriminate. Qed.

Section MissingDimension.
Local Open Scope Q_scope.


Lemma placedSize_stretch (w h : Z) (c d : Q) : placedSize w h c d "stretch" = (c, d).
Proof. reflexivity. Qed.

Lemma snapCanvas_stretch (i j c d : Q) : snapCanvas "stretch" i j c d = (c, d).
Proof. reflexivity. Qed.





End MissingDimension.





Lemma fillMissing_none (w h : Z) (opts : Options) :
  width opts = 0 -> height opts = 0 ->
  fillMissing w h opts = (inject_Z w, inject_Z h, "stretch"%string).
Proof. intros E1 E2. unfold fillMissing. rewrite E1, E2. reflexivity. Qed.



(** C4.  With the output type ["image/vnd.microsoft.icon"], the resolution
    fails with the ICO size error exactly when the dimensions of the source
    are known and the rounded canvas width or height exceeds 256; a canvas
    within 256x256 (256x256 itself included) is returned.  A source without
    dimensions fails before any canvas is resolved, with the other error. *)
Theorem ico_size_cap (img : drawable) (opts : Options) (w h : Z) :
  getImageDimensions img = (w, h) ->
  type opts = VString ICO ->
  let g := fitGeometry w h opts in
  (validateImageFit img opts = Err icoError
   <-> w <> 0 /\ h <> 0 /\ (256 < cw g \/ 256 < ch g))
  /\ (w <> 0 -> h <> 0 -> cw g <= 256 -> ch g <= 256 ->
      validateImageFit img opts = Ok g)
  /\ (w = 0 \/ h = 0 -> validateImageFit img opts = Err dimensionsError).
Proof.
  intros D T g. unfold validateImageFit. rewrite D, T. fold g.
  cbn [strict_eq_string]. rewrite String.eqb_refl. cbn [andb].
  destruct (Z.eqb_spec w 0) as [W|W]; destruct (Z.eqb_spec h 0) as [H|H]; cbn [orb];
    try (split; [split; [discriminate|intros (? & ? & _); contradiction]
                |split; [intros; contradiction|reflexivity]]).
  destruct (Z.ltb_spec 256 (cw g)) as [A|A]; destruct (Z.ltb_spec 256 (ch g)) as [B|B];
    cbn [orb]; (split; [split|split]); intros; try reflexivity; try lia;
    try discriminate; auto;
    match goal with
    | X : _ /\ _ /\ (_ \/ _) |- _ => destruct X as (_ & _ & [?|?]); lia
    end.
Qed.

(* ------------------------------------------------------------------ *)
(** * Fit strings outside the four uniform modes *)

Lemma with_fit_id (opts : Options) : with_fit opts (fit opts) = opts.
Proof. destruct opts; reflexivity. Qed.

Lemma uniformFit_false (f : string) :
  uniformFit f = false ->
  String.eqb f "outside" = false /\ String.eqb f "cover" = false
  /\ String.eqb f "inside" = false /\ String.eqb f "contain" = false.
Proof.
  unfold uniformFit. rewrite !orb_false_iff. tauto.
Qed.

Lemma placedSize_other (w h : Z) (c d : Q) (f : string) :
  uniformFit f = false -> placedSize w h c d f = (c, d).
Proof.
  intros U. apply uniformFit_false in U. destruct U as (A & B & C & D).
  unfold placedSize. rewrite A, B, C, D. reflexivity.
Qed.

Lemma snapCanvas_other (i j c d : Q) (f : string) :
  uniformFit f = false -> snapCanvas f i j c d = (c, d).
Proof.
  intros U. apply uniformFit_false in U. destruct U as (A & B & C & D).
  unfold snapCanvas. rewrite A, C. reflexivity.
Qed.

Lemma fillMissing_fit (w h : Z) (opts : Options) :
  exists c d, forall f,
    fillMissing w h (with_fit opts f)
    = (c, d, if (width opts =? 0) || (height opts =? 0) then "stretch"%string else f).
Proof.
  unfold fillMissing. cbn [with_fit width height fit]. rewrite !nonzero_inject_Z.
  destruct (width opts =? 0), (height opts =? 0); cbn [negb orb];
    eexists; eexists; intros f; reflexivity.
Qed.

Lemma fitGeometry_other_is_stretch (w h : Z) (opts : Options) :
  uniformFit (fit opts) = false ->
  fitGeometry w h opts = fitGeometry w h (with_fit opts "stretch").
Proof.
  intros U. rewrite <- (with_fit_id opts) at 1. rewrite !fitGeometry_phases.
  destruct (fillMissing_fit w h opts) as (c & d & F). rewrite !F.
  cbn [with_fit noEnlarge xGravity yGravity].
  destruct (_ || _); [reflexivity|].
  rewrite placedSize_other, snapCanvas_other by assumption. reflexivity.
Qed.

Lemma stretch_geometry (w h : Z) (opts : Options) :
  uniformFit (fit opts) = false ->
  let g := fitGeometry w h opts in
  iw g = cw g /\ ih g = ch g /\ ix g = 0 /\ iy g = 0.
Proof.
  intros U g. subst g. rewrite fitGeometry_other_is_stretch by assumption.
  rewrite fitGeometry_phases.
  destruct (fillMissing_fit w h opts) as (c & d & F). rewrite F.
  assert (S : (if (width opts =? 0) || (height opts =? 0)
               then "stretch"%string else "stretch"%string) = "stretch"%string)
    by (destruct (_ || _); reflexivity).
  rewrite S, placedSize_stretch, snapCanvas_stretch.
  destruct (shrinkToSource_same w h (noEnlarge (with_fit opts "stretch")) c d)
    as (c' & d' & ->).
  cbn [cw ch iw ih ix iy]. rewrite !Math_round_offset_same. repeat split.
Qed.

(* ------------------------------------------------------------------ *)
(** * The normalizer *)

Section NormalizerFacts.
Context {host : Host}.

(** C1 does not hold of the code.  The normalizer stores the result of the
    north/south/top/bottom parser in [xGravity] and that of the
    east/west/left/right parser in [yGravity], and the offsets use
    [xGravity] for [ix] and [yGravity] for [iy].  So ["north"] leaves a
    100x50 image vertically centred in a 100x100 canvas (offset (0,25)) and
    moves a 50x100 image to the left edge (offset (0,0) instead of (25,0)),
    and ["east"] moves the 100x50 image to the top. *)
Theorem gravity_fields_crossed :
  (forall raw : RawOptions,
      xGravity (validateOptions raw) = getYGravity (raw_gravity raw)
      /\ yGravity (validateOptions raw) = getXGravity (raw_gravity raw))
  /\ validateImageFit (HTMLImageElement 200 100)
       (validateOptions (rawOptions 100 100 (VString "contain") (VString "north") VUndefined))
     = Ok {| imageWidth := 200; imageHeight := 100; cw := 100; ch := 100;
             iw := 100; ih := 50; ix := 0; iy := 25 |}
  /\ validateImageFit (HTMLImageElement 100 200)
       (validateOptions (rawOptions 100 100 (VString "contain") (VString "north") VUndefined))
     = Ok {| imageWidth := 100; imageHeight := 200; cw := 100; ch := 100;
             iw := 50; ih := 100; ix := 0; iy := 0 |}
  /\ validateImageFit (HTMLImageElement 100 200)
       (validateOptions (rawOptions 100 100 (VString "contain") VUndefined VUndefined))
     = Ok {| imageWidth := 100; imageHeight := 200; cw := 100; ch := 100;
             iw := 50; ih := 100; ix := 25; iy := 0 |}
  /\ validateImageFit (HTMLImageElement 200 100)
       (validateOptions (rawOptions 100 100 (VString "contain") (VString "east") VUndefined))
     = Ok {| imageWidth := 200; imageHeight := 100; cw := 100; ch := 100;
             iw := 100; ih := 50; ix := 0; iy := 0 |}.
Proof.
  split; [intros raw; split; reflexivity|].
  repeat split; vm_compute; reflexivity.
Qed.

(** C3 does not hold of the code.  The type defaults to ["image/jpeg"], but
    [alpha] is computed from the type as given, before the default: with no
    type the normalizer answers type ["image/jpeg"] and [alpha = true]. *)
Theorem alpha_from_raw_type :
  (forall raw : RawOptions,
      alpha (validateOptions raw) = typeSupportsAlpha (raw_type raw)
      /\ (truthy (raw_type raw) = false ->
          type (validateOptions raw) = VString "image/jpeg"))
  /\ type (validateOptions noOptions) = VString "image/jpeg"
  /\ alpha (validateOptions noOptions) = true.
Proof.
  split; [|split; reflexivity].
  intros raw. split; [reflexivity|].
  intros T. cbn [validateOptions type]. unfold js_or. rewrite T. reflexivity.
Qed.

(** C2 does not hold of the code.  The object built by the normalizer has
    no [background], so the direct renderer never issues a [fillRect],
    whatever [background] the caller gave: with [background: "#ff0000"] the
    canvas receives the single [drawImage]. *)
Theorem background_never_filled :
  (forall (raw : RawOptions) (img : drawable) (fit : Fit) (c : value) (x y w h : Z),
      ~ In (FillRect c x y w h) (drawn (renderToCanvas img fit (validateOptions raw))))
  /\ (forall raw : RawOptions, background (validateOptions raw) = VUndefined)
  /\ drawn (renderToCanvas (HTMLImageElement 200 100)
              {| imageWidth := 200; imageHeight := 100; cw := 100; ch := 100;
                 iw := 100; ih := 50; ix := 0; iy := 25 |}
              (validateOptions
                 (rawOptions 100 100 (VString "contain") VUndefined (VString "#ff0000"))))
     = [DrawImage (Original (HTMLImageElement 200 100)) 0 25 100 50].
Proof.
  split; [|split; reflexivity].
  intros raw img fit c x y w h. unfold renderToCanvas. cbn [drawn background truthy].
  rewrite in_app_iff. intros [I|I].
  - destruct (smoothen _); [destruct hasImageSmoothingQuality|];
      cbn in I; intuition discriminate.
  - cbn in I. intuition discriminate.
Qed.

End NormalizerFacts.

(* ------------------------------------------------------------------ *)
(** * The worker channel *)

Ltac unfold_js :=
  unfold renderToBlobWithOffscreenCanvas, loadWebWorker,
    try_catch, try_finally, fails, bind, ret, throw, get, modify, lift in *.

Section ChannelFacts.
Context {host : Host}.

Lemma spawns_app (l l' : list event) : spawns (l ++ l') = (spawns l + spawns l')%nat.
Proof. unfold spawns. rewrite filter_app, length_app. reflexivity. Qed.

(** What the attempt on the worker does to the module state, by the state
    of the channel it starts in. *)
Lemma worker_step (d : drawable) (fit : Fit) (opts : Options) (o : Outcome) (s : State) :
  let r := renderToBlobWithOffscreenCanvas d fit opts o s in
  match channel s with
  | PermanentlyFailed e => r = (Err (ResizeError "Worker is not loaded"), s)
  | Ready w =>
      channel (snd r) = Ready w
      /\ spawns (log (snd r)) = spawns (log s)
      /\ (bitmap o = None ->
          log (snd r) = log s ++ [RenderPosted (_messageId s); BitmapClosed]
          /\ fst r = response o)
  | Uninitialized =>
      spawns (log (snd r)) = S (spawns (log s))
      /\ match spawn o, probe o with
         | Some e, _ => channel (snd r) = PermanentlyFailed e /\ fst r = Err e
         | None, Some e => channel (snd r) = PermanentlyFailed e /\ fst r = Err e
         | None, None => channel (snd r) = Ready WorkerHandle
         end
  end.
Proof.
  destruct s as [w we n l]. unfold channel. cbn [_worker _workerError].
  destruct we as [e|]; [reflexivity|].
  destruct w as [w|]; unfold_js; cbn -[spawns].
  - destruct (bitmap o); cbn -[spawns].
    + repeat split; discriminate.
    + destruct (response o); cbn -[spawns]; rewrite <- ?app_assoc, !spawns_app;
        cbn; repeat split; lia.
  - destruct (spawn o); cbn -[spawns]; [rewrite spawns_app; cbn; repeat split; lia|].
    destruct (probe o); cbn -[spawns];
      [rewrite <- ?app_assoc, spawns_app; cbn; repeat split; lia|].
    destruct (bitmap o); cbn -[spawns];
      [rewrite <- ?app_assoc, spawns_app; cbn; repeat split; lia|].
    destruct (response o); cbn -[spawns]; rewrite <- ?app_assoc, spawns_app; cbn;
      repeat split; lia.
Qed.

(** [resizeImageToBlob] with the monad unfolded. *)
Lemma resizeImageToBlob_eq (img : source) (raw : RawOptions) (o : Outcome) (s : State) :
  resizeImageToBlob img raw o s =
  let opts := validateOptions raw in
  match validateImageAndMakeDrawable img opts with
  | Err e => (Err e, s)
  | Ok d =>
      match validateImageFit d opts with
      | Err e => (Err e, s)
      | Ok fit =>
          let direct :=
            getBlobFromCanvas (renderToCanvas d fit opts) (type opts) (quality opts) in
          if hasOffscreenCanvas && negb (isSome (_workerError s)) then
            match renderToBlobWithOffscreenCanvas d fit opts o s with
            | (Ok blob, s') => (Ok blob, s')
            | (Err _, s') => (direct, s')
            end
          else (direct, s)
      end
  end.
Proof.
  unfold resizeImageToBlob, bind, lift, get, try_catch, ret. cbv zeta.
  destruct (validateImageAndMakeDrawable img (validateOptions raw)) as [d|e];
    [|reflexivity].
  destruct (validateImageFit d (validateOptions raw)) as [fit|e]; [|reflexivity].
  destruct (hasOffscreenCanvas && negb (isSome (_workerError s))); [|reflexivity].
  destruct (renderToBlobWithOffscreenCanvas d fit (validateOptions raw) o s)
    as [[b|e] s']; reflexivity.
Qed.

(** A call leaves the module state alone, or leaves it as the attempt on
    the worker left it. *)
Lemma resize_state (img : source) (raw : RawOptions) (o : Outcome) (s : State) :
  snd (resizeImageToBlob img raw o s) = s
  \/ _workerError s = None
     /\ exists d fit,
          snd (resizeImageToBlob img raw o s)
          = snd (renderToBlobWithOffscreenCanvas d fit (validateOptions raw) o s).
Proof.
  rewrite resizeImageToBlob_eq. cbv zeta.
  destruct (validateImageAndMakeDrawable img (validateOptions raw)) as [d|e];
    [|left; reflexivity].
  destruct (validateImageFit d (validateOptions raw)) as [fit|e]; [|left; reflexivity].
  destruct (hasOffscreenCanvas && negb (isSome (_workerError s))) eqn:A;
    [|left; reflexivity].
  right. split.
  - apply andb_true_iff in A. destruct A as [_ A].
    destruct (_workerError s); [discriminate|reflexivity].
  - exists d, fit.
    destruct (renderToBlobWithOffscreenCanvas d fit (validateOptions raw) o s)
      as [[b|e] s']; reflexivity.
Qed.


(** C8.  For a source that resolves to a drawable and options whose
    geometry resolves, when the attempt on the worker fails during the call
    (with whatever error: the bitmap copy, the reply of the worker, or the
    bootstrap), the public operation returns what the direct strategy alone
    returns on the same input; the error of the worker is not in the
    result. *)
Theorem worker_failure_falls_back (img : source) (raw : RawOptions) (o : Outcome)
  (s s' : State) (d : drawable) (fit : Fit) (e : error) :
  validateImageAndMakeDrawable img (validateOptions raw) = Ok d ->
  validateImageFit d (validateOptions raw) = Ok fit ->
  renderToBlobWithOffscreenCanvas d fit (validateOptions raw) o s = (Err e, s') ->
  fst (resizeImageToBlob img raw o s) = resizeDirect img raw.
Proof.
  intros E1 E2 E3. rewrite resizeImageToBlob_eq. unfold resizeDirect. cbv zeta.
  rewrite E1, E2, E3.
  destruct (hasOffscreenCanvas && negb (isSome (_workerError s))); reflexivity.
Qed.

Lemma channel_failed_inv (s : State) (e : error) :
  channel s = PermanentlyFailed e -> _workerError s = Some e.
Proof.
  unfold channel. destruct (_workerError s); [congruence|].
  destruct (_worker s); discriminate.
Qed.

Lemma failed_call (img : source) (raw : RawOptions) (o : Outcome) (s : State) (e : error) :
  channel s = PermanentlyFailed e -> snd (resizeImageToBlob img raw o s) = s.
Proof.
  intros F. apply channel_failed_inv in F.
  destruct (resize_state img raw o s) as [E|[N _]]; [assumption|congruence].
Qed.

Lemma ready_call (img : source) (raw : RawOptions) (o : Outcome) (s : State) (w : Worker) :
  channel s = Ready w ->
  channel (snd (resizeImageToBlob img raw o s)) = Ready w
  /\ spawns (log (snd (resizeImageToBlob img raw o s))) = spawns (log s).
Proof.
  intros R. destruct (resize_state img raw o s) as [E|[_ (d & fit & E)]]; rewrite E.
  - split; [assumption|reflexivity].
  - pose proof (worker_step d fit (validateOptions raw) o s) as W.
    cbv zeta in W. rewrite R in W. destruct W as (A & B & _). split; assumption.
Qed.


End ChannelFacts.

(* ------------------------------------------------------------------ *)
(** * The theorems at concrete inputs *)

Lemma ico_size_cap_witness :
  validateImageFit (HTMLImageElement 100 100) (mkOptions 256 256 "stretch" false 0 0 ICO)
  = Ok (fitGeometry 100 100 (mkOptions 256 256 "stretch" false 0 0 ICO))
  /\ validateImageFit (HTMLImageElement 100 100) (mkOptions 300 300 "stretch" false 0 0 ICO)
     = Err icoError.
Proof.
  split.
  - apply (ico_size_cap (HTMLImageElement 100 100)
             (mkOptions 256 256 "stretch" false 0 0 ICO) 100 100 eq_refl eq_refl);
      [lia|lia|vm_compute; discriminate|vm_compute; discriminate].
  - apply (ico_size_cap (HTMLImageElement 100 100)
             (mkOptions 300 300 "stretch" false 0 0 ICO) 100 100 eq_refl eq_refl).
    split; [lia|split; [lia|left; vm_compute; reflexivity]].
Defined.

Lemma canvas_snapping_witness :
  match validateImageFit (HTMLImageElement 200 100)
          (mkOptions 100 100 "cover" true 0 0 "image/png") with
  | Ok g => cw g = 100 /\ ch g = 100
  | Err e => e = icoError
  end.
Proof.
  pose proof (proj1 canvas_snapping (HTMLImageElement 200 100)
                (mkOptions 100 100 "cover" true 0 0 "image/png") 200 100
                eq_refl ltac:(lia) ltac:(lia) ltac:(simpl; lia) ltac:(simpl; lia)) as H.
  destruct (validateImageFit _ _) as [g|e]; [|exact H].
  apply (proj2 H).
  - right. reflexivity.
  - right. right. simpl. repeat split; lia.
Defined.


Lemma noEnlarge_never_enlarges_witness :
  match validateImageFit (HTMLImageElement 50 40)
          (mkOptions 300 100 "outside" true 1 1 "image/png") with
  | Ok g => iw g <= 50 /\ ih g <= 40
  | Err e => e = icoError
  end.
Proof.
  apply (noEnlarge_never_enlarges (HTMLImageElement 50 40)
           (mkOptions 300 100 "outside" true 1 1 "image/png") 50 40);
    [reflexivity|lia|lia|simpl; lia|simpl; lia|reflexivity].
Defined.

Lemma worker_failure_falls_back_witness :
  fst (resizeImageToBlob (host := fullHost) picture200x100 contain100 renderFails initialState)
  = resizeDirect (host := fullHost) picture200x100 contain100
  /\ resizeDirect (host := fullHost) picture200x100 contain100 = Ok (100, 100).
Proof.
  split; [|vm_compute; reflexivity].
  eapply (worker_failure_falls_back (host := fullHost) picture200x100 contain100
            renderFails initialState);
    [reflexivity|vm_compute; reflexivity|vm_compute; reflexivity].
Defined.


(** Two calls after a bootstrap that succeeded and a render that failed:
    the channel is still [Ready], spawned once, and both later calls posted
    their render message. *)
Example ready_after_render_failure :
  let s := calls (host := fullHost)
             [(picture200x100, contain100, renderFails);
              (picture200x100, contain100, renderFails);
              (picture200x100, contain100, renders)] initialState in
  channel s = Ready WorkerHandle
  /\ log s = [WorkerSpawned; TestPosted; RenderPosted 0; BitmapClosed;
              RenderPosted 1; BitmapClosed; RenderPosted 2; BitmapClosed].
Proof. vm_compute. split; reflexivity. Qed.

(* ------------------------------------------------------------------ *)
(** * More on rounding *)


(* ------------------------------------------------------------------ *)
(** * Strings: lower-casing and substrings *)

Lemma lower_ascii_idem (c : ascii) : lower_ascii (lower_ascii c) = lower_ascii c.
Proof. destruct c as [[] [] [] [] [] [] [] []]; reflexivity. Qed.

Lemma toLowerCase_idem (s : string) : toLowerCase (toLowerCase s) = toLowerCase s.
Proof.
  induction s as [|c s IH]; [reflexivity|].
  cbn [toLowerCase]. rewrite lower_ascii_idem, IH. reflexivity.
Qed.

Lemma toLowerCase_app (a b : string) :
  toLowerCase (a ++ b) = (toLowerCase a ++ toLowerCase b)%string.
Proof.
  induction a as [|c a IH]; [reflexivity|].
  cbn [toLowerCase String.append]. rewrite IH. reflexivity.
Qed.

Lemma toLowerCase_nonempty (s : string) : s <> EmptyString -> toLowerCase s <> EmptyString.
Proof. destruct s; [contradiction|discriminate]. Qed.

Lemma prefix_app (p b : string) : String.prefix p (p ++ b) = true.
Proof.
  induction p as [|c p IH]; [destruct b; reflexivity|].
  cbn [String.prefix String.append]. destruct (ascii_dec c c); [assumption|contradiction].
Qed.

Lemma prefix_split (p s : string) :
  String.prefix p s = true -> exists b, s = (p ++ b)%string.
Proof.
  revert s. induction p as [|c p IH]; intros s H.
  - exists s. reflexivity.
  - destruct s as [|c' s]; [discriminate|]. cbn [String.prefix] in H.
    destruct (ascii_dec c c') as [->|]; [|discriminate].
    destruct (IH s H) as [b ->]. exists b. reflexivity.
Qed.

Lemma includes_unfold (s p : string) :
  includes s p =
  if String.prefix p s then true
  else match s with
       | EmptyString => false
       | String _ r => includes r p
       end.
Proof. destruct s; reflexivity. Qed.

(** [includes] decides [occurs]. *)
Lemma includes_occurs (s p : string) : includes s p = true <-> occurs p s.
Proof.
  split.
  - induction s as [|c s IH]; rewrite includes_unfold.
    + destruct (String.prefix p EmptyString) eqn:E; [|discriminate].
      intros _. destruct (prefix_split _ _ E) as [b ->].
      exists EmptyString, b. reflexivity.
    + destruct (String.prefix p (String c s)) eqn:E.
      * intros _. destruct (prefix_split _ _ E) as [b ->].
        exists EmptyString, b. reflexivity.
      * intros H. destruct (IH H) as (a & b & ->).
        exists (String c a), b. reflexivity.
  - intros (a & b & ->). induction a as [|c a IH]; rewrite includes_unfold.
    + cbn [String.append]. rewrite prefix_app. reflexivity.
    + cbn [String.append]. destruct (String.prefix _ _); [reflexivity|assumption].
Qed.

Lemma includes_false (s p : string) : includes s p = false <-> ~ occurs p s.
Proof.
  rewrite <- includes_occurs. destruct (includes s p); split; intros; congruence.
Qed.

(* ------------------------------------------------------------------ *)
(** * Further properties of the normalizer *)

Lemma getYGravity_range (g : value) : -1 <= getYGravity g <= 1.
Proof.
  destruct g; cbn [getYGravity]; try lia.
  destruct (_ || _); [lia|]. destruct (_ || _); lia.
Qed.

Lemma getXGravity_range (g : value) : -1 <= getXGravity g <= 1.
Proof.
  destruct g; cbn [getXGravity]; try lia.
  destruct (_ || _); [lia|]. destruct (_ || _); lia.
Qed.

(** X1.  [getYGravity] on a string answers -1 exactly when the lower-cased
    string contains ["north"] or ["top"] (whatever else it contains), 1
    exactly when it contains neither of them but ["south"] or ["bottom"],
    and 0 otherwise; on anything but a string it answers 0. *)
Theorem getYGravity_spec (g : value) :
  (getYGravity g = -1
   <-> exists s, g = VString s
                 /\ (occurs "north" (toLowerCase s) \/ occurs "top" (toLowerCase s)))
  /\ (getYGravity g = 1
      <-> exists s, g = VString s
                    /\ ~ occurs "north" (toLowerCase s) /\ ~ occurs "top" (toLowerCase s)
                    /\ (occurs "south" (toLowerCase s) \/ occurs "bottom" (toLowerCase s)))
  /\ (getYGravity g = -1 \/ getYGravity g = 0 \/ getYGravity g = 1).
Proof.
  destruct g as [| |b|n|s]; cbn [getYGravity];
    try (split; [|split]; [split; [discriminate|intros (s & E & _); discriminate]
                          |split; [discriminate|intros (s & E & _); discriminate]
                          |right; left; reflexivity]).
  destruct (includes (toLowerCase s) "north") eqn:N;
    destruct (includes (toLowerCase s) "top") eqn:T;
    destruct (includes (toLowerCase s) "south") eqn:S;
    destruct (includes (toLowerCase s) "bottom") eqn:B; cbn [orb];
    rewrite ?includes_occurs, ?includes_false in *;
    (split; [|split]; [split|split|]);
    try discriminate; try (intros _; exists s; tauto);
    try (intros (s' & [= <-] & H); tauto); auto.
Qed.

(** X2.  [getXGravity] on a string answers -1 exactly when the lower-cased
    string contains ["east"] or ["left"], 1 exactly when it contains neither
    of them but ["west"] or ["right"], and 0 otherwise; on anything but a
    string it answers 0. *)
Theorem getXGravity_spec (g : value) :
  (getXGravity g = -1
   <-> exists s, g = VString s
                 /\ (occurs "east" (toLowerCase s) \/ occurs "left" (toLowerCase s)))
  /\ (getXGravity g = 1
      <-> exists s, g = VString s
                    /\ ~ occurs "east" (toLowerCase s) /\ ~ occurs "left" (toLowerCase s)
                    /\ (occurs "west" (toLowerCase s) \/ occurs "right" (toLowerCase s)))
  /\ (getXGravity g = -1 \/ getXGravity g = 0 \/ getXGravity g = 1).
Proof.
  destruct g as [| |b|n|s]; cbn [getXGravity];
    try (split; [|split]; [split; [discriminate|intros (s & E & _); discriminate]
                          |split; [discriminate|intros (s & E & _); discriminate]
                          |right; left; reflexivity]).
  destruct (includes (toLowerCase s) "east") eqn:N;
    destruct (includes (toLowerCase s) "left") eqn:T;
    destruct (includes (toLowerCase s) "west") eqn:S;
    destruct (includes (toLowerCase s) "right") eqn:B; cbn [orb];
    rewrite ?includes_occurs, ?includes_false in *;
    (split; [|split]; [split|split|]);
    try discriminate; try (intros _; exists s; tauto);
    try (intros (s' & [= <-] & H); tauto); auto.
Qed.

Section NormalizerMore.
Context {host : Host}.
Local Open Scope Q_scope.

Lemma parseNumberArg_unusable (v : value) (d : Q) :
  unusable v -> parseNumberArg v d = d.
Proof.
  unfold unusable, parseNumberArg. intros [N|N]; rewrite N; [reflexivity|].
  destruct (not_nullish v); reflexivity.
Qed.

(** X3.  For options whose width, height and quality are missing, not
    convertible to a number, or finite numbers (the values [value] covers;
    an infinite width or height is outside them), the normalized options are
    in range: width and height are non-negative integers, the quality lies
    in [0,1], both gravity fields are -1, 0 or 1, the type is never a falsy
    value, and the fit string is non-empty and already lower-case. *)
Theorem validateOptions_ranges (raw : RawOptions) :
  let opts := validateOptions raw in
  (0 <= width opts)%Z /\ (0 <= height opts)%Z
  /\ 0 <= quality opts /\ quality opts <= 1
  /\ (-1 <= xGravity opts <= 1)%Z /\ (-1 <= yGravity opts <= 1)%Z
  /\ truthy (type opts) = true
  /\ fit opts <> EmptyString /\ toLowerCase (fit opts) = fit opts.
Proof.
  cbn [validateOptions width height quality xGravity yGravity type fit].
  repeat split; try apply Z.le_max_r.
  - apply Q.min_glb; [apply Q.le_max_r|lra].
  - apply Q.le_min_r.
  - apply getYGravity_range.
  - apply getYGravity_range.
  - apply getXGravity_range.
  - apply getXGravity_range.
  - unfold js_or. destruct (truthy (raw_type raw)) eqn:T; [assumption|reflexivity].
  - destruct (raw_fit raw) as [| |b|n|[|c s]]; discriminate.
  - destruct (raw_fit raw) as [| |b|n|[|c s]]; try reflexivity.
    cbn [String.length Z.of_nat Z.ltb Z.compare]. apply toLowerCase_idem.
Qed.

Lemma validateOptions_numbers' (raw : RawOptions) :
  (unusable (raw_width raw) -> width (validateOptions raw) = 0%Z)
  /\ (unusable (raw_height raw) -> height (validateOptions raw) = 0%Z).
Proof.
  cbn [validateOptions width height]. split; intros U;
    rewrite (parseNumberArg_unusable _ _ U); reflexivity.
Qed.

(** X4.  A width, height or quality that is missing, [null], or does not
    convert to a number is replaced by its default: width and height become
    0 and the quality becomes 1; a numeric width or height is rounded to the
    nearest integer (ties up) and a negative one becomes 0; a numeric
    quality is clamped to [0,1]. *)
Theorem validateOptions_numbers (raw : RawOptions) :
  let opts := validateOptions raw in
  (unusable (raw_width raw) -> width opts = 0%Z)
  /\ (unusable (raw_height raw) -> height opts = 0%Z)
  /\ (unusable (raw_quality raw) -> quality opts == 1)
  /\ (forall q, raw_width raw = VNumber (Num q) ->
                width opts = Z.max (Qfloor (q + (1 # 2))) 0)
  /\ (forall q, raw_height raw = VNumber (Num q) ->
                height opts = Z.max (Qfloor (q + (1 # 2))) 0)
  /\ (forall q, raw_quality raw = VNumber (Num q) ->
                (q <= 0 -> quality opts == 0)
                /\ (0 <= q <= 1 -> quality opts == q)
                /\ (1 <= q -> quality opts == 1)).
Proof.
  cbn [validateOptions width height quality].
  split; [|split; [|split; [|split; [|split]]]].
  - intros U. rewrite (parseNumberArg_unusable _ _ U). reflexivity.
  - intros U. rewrite (parseNumberArg_unusable _ _ U). reflexivity.
  - intros U. rewrite (parseNumberArg_unusable _ _ U). reflexivity.
  - intros q E. rewrite E. reflexivity.
  - intros q E. rewrite E. reflexivity.
  - intros q E. rewrite E. cbn [parseNumberArg not_nullish Number].
    split; [|split]; intros L.
    + rewrite (Q.max_r q 0) by assumption. apply Q.min_l. lra.
    + rewrite (Q.max_l q 0) by lra. apply Q.min_l. lra.
    + rewrite (Q.max_l q 0) by lra. apply Q.min_r. assumption.
Qed.

End NormalizerMore.

(* ------------------------------------------------------------------ *)
(** * Further properties of the fit geometry *)

Lemma strict_eq_string_true (v : value) (s : string) :
  strict_eq_string v s = true <-> v = VString s.
Proof.
  destruct v; cbn [strict_eq_string]; try (split; [discriminate|discriminate]).
  rewrite String.eqb_eq. split; [intros ->; reflexivity|intros [= ->]; reflexivity].
Qed.

Lemma fitGeometry_source (w h : Z) (opts : Options) :
  imageWidth (fitGeometry w h opts) = w /\ imageHeight (fitGeometry w h opts) = h.
Proof.
  rewrite fitGeometry_phases.
  destruct (fillMissing w h opts) as [[c d] f].
  destruct (placedSize w h c d f) as [i j].
  destruct (snapCanvas f i j c d) as [c' d'].
  destruct (shrinkToSource w h (noEnlarge opts) i j c' d') as [[[i2 j2] c2] d2].
  split; reflexivity.
Qed.

(** X5.  Geometry resolution fails with the dimensions error exactly when a
    source dimension is zero, whatever the options; any other failure is
    the ICO size error and needs the type to be the ICO string itself; and
    a result carries the source dimensions, both non-zero. *)
Theorem validateImageFit_errors (img : drawable) (opts : Options) (w h : Z) :
  getImageDimensions img = (w, h) ->
  (validateImageFit img opts = Err dimensionsError <-> w = 0 \/ h = 0)
  /\ (forall e, validateImageFit img opts = Err e ->
                e = dimensionsError \/ (e = icoError /\ type opts = VString ICO))
  /\ (forall g, validateImageFit img opts = Ok g ->
                imageWidth g = w /\ imageHeight g = h /\ w <> 0 /\ h <> 0).
Proof.
  intros D. unfold validateImageFit. rewrite D.
  destruct (Z.eqb_spec w 0) as [W|W]; destruct (Z.eqb_spec h 0) as [H|H]; cbn [orb];
    try (split; [split; [auto|reflexivity]
                |split; [intros e [= <-]; left; reflexivity|discriminate]]).
  destruct (strict_eq_string (type opts) ICO) eqn:T; cbn [andb].
  - apply strict_eq_string_true in T.
    destruct (_ || _).
    + split; [split; [discriminate|intros [?|?]; contradiction]|].
      split; [intros e [= <-]; right; split; [reflexivity|assumption]|discriminate].
    + split; [split; [discriminate|intros [?|?]; contradiction]|].
      split; [discriminate|]. intros g [= <-]. repeat split; try assumption; apply fitGeometry_source.
  - split; [split; [discriminate|intros [?|?]; contradiction]|].
    split; [discriminate|]. intros g [= <-]. repeat split; try assumption; apply fitGeometry_source.
Qed.

Lemma validateImageFit_not_ico (img : drawable) (opts : Options) (w h : Z) :
  getImageDimensions img = (w, h) -> w <> 0 -> h <> 0 ->
  type opts <> VString ICO
  \/ (cw (fitGeometry w h opts) <= 256 /\ ch (fitGeometry w h opts) <= 256) ->
  validateImageFit img opts = Ok (fitGeometry w h opts).
Proof.
  intros D W H T. rewrite (validateImageFit_cases img opts w h D W H).
  destruct (strict_eq_string (type opts) ICO) eqn:E; [|reflexivity].
  apply strict_eq_string_true in E. destruct T as [T|[A B]]; [contradiction|].
  destruct (Z.ltb_spec 256 (cw (fitGeometry w h opts))); [lia|].
  destruct (Z.ltb_spec 256 (ch (fitGeometry w h opts))); [lia|]. reflexivity.
Qed.

Section Defaults.
Context {host : Host}.

(** X6.  When the caller gives no usable width and no usable height, the
    image is resolved at the source size, filling the canvas at offset
    (0,0), whatever the fit, gravity, noEnlarge and quality: for a source of
    positive dimensions, unless the type is ICO and the source exceeds
    256 pixels on a side. *)
Theorem no_size_keeps_source (raw : RawOptions) (img : drawable) (w h : Z) :
  getImageDimensions img = (w, h) -> 0 < w -> 0 < h ->
  unusable (raw_width raw) -> unusable (raw_height raw) ->
  raw_type raw <> VString ICO \/ (w <= 256 /\ h <= 256) ->
  validateImageFit img (validateOptions raw)
  = Ok {| imageWidth := w; imageHeight := h; cw := w; ch := h;
          iw := w; ih := h; ix := 0; iy := 0 |}.
Proof.
  intros D W H UW UH T.
  destruct (validateOptions_numbers' raw) as (EW & EH).
  specialize (EW UW). specialize (EH UH).
  assert (G : fitGeometry w h (validateOptions raw)
              = {| imageWidth := w; imageHeight := h; cw := w; ch := h;
                   iw := w; ih := h; ix := 0; iy := 0 |}).
  { rewrite fitGeometry_phases, fillMissing_none, placedSize_stretch,
      snapCanvas_stretch by assumption.
    rewrite shrinkToSource_fits
      by (try apply inject_Z_pos; try apply Qle_refl; assumption).
    rewrite !Math_round_offset_same, !Math_round_inject_Z. reflexivity. }
  rewrite (validateImageFit_not_ico img _ w h D); [f_equal; exact G|lia|lia|].
  rewrite G. cbn [cw ch]. destruct T as [T|T]; [left|right; assumption].
  cbn [validateOptions type]. unfold js_or.
  destruct (truthy (raw_type raw)); [assumption|discriminate].
Qed.

End Defaults.

Section PlacementFacts.
Local Open Scope Q_scope.




(** [shrinkToSource] multiplies its four arguments by one positive factor:
    1, or the smaller of the two source-to-image ratios. *)
Lemma shrinkToSource_scaled (w h : Z) (ne : bool) (i j c d : Q) :
  (0 < w)%Z -> (0 < h)%Z -> 0 < i -> 0 < j ->
  exists t i' j' c' d',
    shrinkToSource w h ne i j c d = (i', j', c', d')
    /\ 0 < t /\ i' == i * t /\ j' == j * t /\ c' == c * t /\ d' == d * t.
Proof.
  intros W H I J. apply inject_Z_pos in W, H. unfold shrinkToSource.
  destruct ne; [destruct (Qlt_bool _ _)|].
  - exists (Qmin (inject_Z w / i) (inject_Z h / j)). do 4 eexists.
    split; [reflexivity|]. split; [apply Qmin_pos; now apply Qdiv_pos|].
    repeat split; reflexivity.
  - exists 1, i, j, c, d. split; [reflexivity|]. split; [lra|]. repeat split; ring.
  - exists 1, i, j, c, d. split; [reflexivity|]. split; [lra|]. repeat split; ring.
Qed.

(** With [noEnlarge], either nothing is scaled or one side of the image
    lands exactly on the source. *)
Lemma shrinkToSource_tight (w h : Z) (i j c d : Q) :
  0 < i -> 0 < j ->
  shrinkToSource w h true i j c d = shrinkToSource w h false i j c d
  \/ exists i' j' c' d',
       shrinkToSource w h true i j c d = (i', j', c', d')
       /\ (i' == inject_Z w \/ j' == inject_Z h).
Proof.
  intros I J. unfold shrinkToSource.
  destruct (Qlt_bool _ _); [|left; reflexivity]. right. do 4 eexists.
  split; [reflexivity|].
  destruct (Q.min_spec (inject_Z w / i) (inject_Z h / j)) as [[_ E]|[_ E]]; rewrite E.
  - left. apply Qmult_div_r. lra.
  - right. apply Qmult_div_r. lra.
Qed.



End PlacementFacts.


Section PlacementTheorems.
Local Open Scope Z_scope.



End PlacementTheorems.

Section OffsetTheorems.
Local Open Scope Z_scope.

Lemma placed_is_canvas (w h : Z) (c d : Q) (f : string) :
  f <> "contain"%string -> f <> "cover"%string ->
  exists i j, placedSize w h c d f = (i, j) /\ snapCanvas f i j c d = (i, j).
Proof.
  intros N1 N2. unfold placedSize, snapCanvas.
  destruct (String.eqb_spec f "outside") as [->|O].
  - eexists. eexists. split; reflexivity.
  - destruct (String.eqb_spec f "cover") as [->|C]; [contradiction|].
    destruct (String.eqb_spec f "inside") as [->|I].
    + eexists. eexists. split; reflexivity.
    + destruct (String.eqb_spec f "contain") as [->|K]; [contradiction|].
      eexists. eexists. split; reflexivity.
Qed.

(** X9.  Only ["contain"] and ["cover"] with both target sides given ever
    place the image off the origin or leave image and canvas of different
    sizes: with a target side missing, or any other fit string, the rounded
    image is the rounded canvas and both offsets are 0, whatever the
    gravity. *)
Theorem gravity_only_for_contain_and_cover
  (img : drawable) (opts : Options) (g : Fit) :
  width opts = 0 \/ height opts = 0
  \/ (fit opts <> "contain"%string /\ fit opts <> "cover"%string) ->
  validateImageFit img opts = Ok g ->
  iw g = cw g /\ ih g = ch g /\ ix g = 0 /\ iy g = 0.
Proof.
  intros C E. unfold validateImageFit in E.
  destruct (getImageDimensions img) as [w h].
  destruct (_ || _); [discriminate|]. destruct (_ && _); [discriminate|].
  injection E as <-. rewrite fitGeometry_phases.
  assert (P : exists c d f i j,
             fillMissing w h opts = (c, d, f)
             /\ placedSize w h c d f = (i, j) /\ snapCanvas f i j c d = (i, j)).
  { destruct (fillMissing w h opts) as [[c d] f] eqn:F.
    assert (N : f <> "contain"%string /\ f <> "cover"%string).
    { destruct (fillMissing_fit w h opts) as (c' & d' & F').
      specialize (F' (fit opts)). rewrite with_fit_id, F in F'.
      injection F' as _ _ ->.
      destruct (Z.eqb_spec (width opts) 0) as [Z1|Z1];
        [split; discriminate|].
      destruct (Z.eqb_spec (height opts) 0) as [Z2|Z2];
        [split; discriminate|].
      cbn [orb]. destruct C as [C|[C|C]]; [contradiction|contradiction|exact C]. }
    destruct (placed_is_canvas w h c d f (proj1 N) (proj2 N)) as (i & j & P1 & P2).
    exists c, d, f, i, j. repeat split; assumption. }
  destruct P as (c & d & f & i & j & -> & -> & ->).
  destruct (shrinkToSource_same w h (noEnlarge opts) i j) as (i' & j' & ->).
  cbn [cw ch iw ih ix iy]. rewrite !Math_round_offset_same. repeat split.
Qed.



End OffsetTheorems.

Section ShrinkTheorems.
Local Open Scope Z_scope.

Lemma with_noEnlarge_phases (w h : Z) (opts : Options) (b : bool) :
  fillMissing w h (with_noEnlarge opts b) = fillMissing w h opts.
Proof. reflexivity. Qed.

(** X11.  [noEnlarge] shrinks no further than needed: for a source of
    positive dimensions and non-negative target sides, either the result is
    the one obtained without [noEnlarge], or the rounded image is exactly as
    wide or exactly as high as the source. *)
Theorem noEnlarge_is_tight (img : drawable) (opts : Options) (w h : Z) :
  getImageDimensions img = (w, h) ->
  0 < w -> 0 < h -> 0 <= width opts -> 0 <= height opts ->
  noEnlarge opts = true ->
  validateImageFit img opts = validateImageFit img (with_noEnlarge opts false)
  \/ match validateImageFit img opts with
     | Ok g => iw g = w \/ ih g = h
     | Err e => e = icoError
     end.
Proof.
  intros D W H TW TH NE.
  rewrite !(validateImageFit_cases img _ w h D) by lia.
  cbn [type with_noEnlarge].
  rewrite !fitGeometry_phases, with_noEnlarge_phases.
  cbn [noEnlarge xGravity yGravity with_noEnlarge]. rewrite NE.
  destruct (fillMissing w h opts) as [[c0 d0] f] eqn:E1.
  destruct (placedSize w h c0 d0 f) as [i1 j1] eqn:E2.
  destruct (snapCanvas f i1 j1 c0 d0) as [c1 d1] eqn:E3.
  destruct (fillMissing_pos _ _ _ _ _ _ W H TW TH E1) as [C0 D0].
  destruct (placedSize_pos _ _ _ _ _ _ _ W H C0 D0 E2) as [I1 J1].
  destruct (shrinkToSource_tight w h i1 j1 c1 d1 I1 J1)
    as [->|(i2 & j2 & c2 & d2 & -> & T)]; [left; reflexivity|].
  right. destruct (_ && _); [reflexivity|]. cbn [iw ih].
  destruct T as [T|T]; [left|right];
    rewrite (Math_round_comp _ _ T); apply Math_round_inject_Z.
Qed.

Lemma fitGeometry_keeps_target (w h : Z) (opts : Options) :
  width opts <> 0 -> height opts <> 0 -> noEnlarge opts = false ->
  fit opts <> "outside"%string -> fit opts <> "inside"%string ->
  cw (fitGeometry w h opts) = width opts /\ ch (fitGeometry w h opts) = height opts.
Proof.
  intros TW TH NE O I. rewrite fitGeometry_phases, fillMissing_both by assumption.
  destruct (placedSize w h _ _ (fit opts)) as [i1 j1].
  unfold snapCanvas, shrinkToSource. rewrite NE.
  destruct (String.eqb_spec (fit opts) "outside"); [contradiction|].
  destruct (String.eqb_spec (fit opts) "inside"); [contradiction|].
  cbn [orb cw ch]. rewrite !Math_round_inject_Z. split; reflexivity.
Qed.

(** X12.  With the ICO type, [noEnlarge] off, both target sides given and a
    fit other than ["outside"] and ["inside"], the outcome depends on the
    requested size alone: for every source with known dimensions the
    resolution fails with the ICO size error exactly when the requested
    width or height exceeds 256. *)
Theorem ico_requested_size (img : drawable) (opts : Options) (w h : Z) :
  getImageDimensions img = (w, h) -> w <> 0 -> h <> 0 ->
  type opts = VString ICO ->
  width opts <> 0 -> height opts <> 0 -> noEnlarge opts = false ->
  fit opts <> "outside"%string -> fit opts <> "inside"%string ->
  (validateImageFit img opts = Err icoError <-> 256 < width opts \/ 256 < height opts)
  /\ (width opts <= 256 -> height opts <= 256 ->
      exists g, validateImageFit img opts = Ok g
                /\ cw g = width opts /\ ch g = height opts).
Proof.
  intros D W H T TW TH NE O I.
  rewrite (validateImageFit_cases img opts w h D W H), T.
  destruct (fitGeometry_keeps_target w h opts TW TH NE O I) as [-> ->].
  cbn [strict_eq_string]. rewrite String.eqb_refl. cbn [andb].
  destruct (Z.ltb_spec 256 (width opts)); destruct (Z.ltb_spec 256 (height opts));
    cbn [orb]; (split; [split|]); intros; try reflexivity; try lia; try discriminate;
    auto;
    try match goal with X : _ \/ _ |- _ => destruct X; lia end.
  exists (fitGeometry w h opts). split; [reflexivity|].
  apply fitGeometry_keeps_target; assumption.
Qed.

(** X13.  With [noEnlarge] off, both target sides given and a fit string
    that is none of the four uniform modes (["stretch"] and any unknown
    word), the result is the requested box itself: canvas and image are the
    target size and the offset is (0,0), whatever the source proportions and
    the gravity (unless the ICO cap rejects the size). *)
Theorem stretch_is_requested_box (img : drawable) (opts : Options) (w h : Z) :
  getImageDimensions img = (w, h) -> w <> 0 -> h <> 0 ->
  width opts <> 0 -> height opts <> 0 -> noEnlarge opts = false ->
  uniformFit (fit opts) = false ->
  type opts <> VString ICO \/ (width opts <= 256 /\ height opts <= 256) ->
  validateImageFit img opts
  = Ok {| imageWidth := w; imageHeight := h;
          cw := width opts; ch := height opts;
          iw := width opts; ih := height opts; ix := 0; iy := 0 |}.
Proof.
  intros D W H TW TH NE U T.
  assert (G : fitGeometry w h opts
              = {| imageWidth := w; imageHeight := h;
                   cw := width opts; ch := height opts;
                   iw := width opts; ih := height opts; ix := 0; iy := 0 |}).
  { rewrite fitGeometry_phases, fillMissing_both by assumption.
    rewrite placedSize_other, snapCanvas_other by assumption.
    unfold shrinkToSource. rewrite NE.
    rewrite !Math_round_offset_same, !Math_round_inject_Z. reflexivity. }
  rewrite (validateImageFit_not_ico img _ w h D W H); [f_equal; exact G|].
  rewrite G. exact T.
Qed.

End ShrinkTheorems.

Section BoxTheorems.
Local Open Scope Z_scope.

Lemma shrinkToSource_le (w h : Z) (ne : bool) (i j c d i' j' c' d' : Q) :
  (0 <= c)%Q -> (0 <= d)%Q ->
  shrinkToSource w h ne i j c d = (i', j', c', d') ->
  (c' <= c /\ d' <= d)%Q.
Proof.
  intros C D. unfold shrinkToSource.
  destruct ne; [destruct (Qlt_bool _ 1) eqn:B|]; intros [= <- <- <- <-];
    try (split; apply Qle_refl).
  apply Qlt_bool_iff in B. set (s := Qmin _ _) in *. split; nra.
Qed.



End BoxTheorems.

(** A fit string outside the four uniform modes, both target sides given:
    the canvas is the requested box, or that box shrunk by [noEnlarge]. *)
Lemma stretch_box_geometry (w h : Z) (opts : Options) :
  0 < w -> 0 < h -> 0 < width opts -> 0 < height opts ->
  uniformFit (fit opts) = false ->
  let g := fitGeometry w h opts in
  cw g <= width opts /\ ch g <= height opts
  /\ 2 * Z.abs (cw g * height opts - ch g * width opts) <= width opts + height opts
  /\ (noEnlarge opts = false -> cw g = width opts /\ ch g = height opts)
  /\ (noEnlarge opts = true ->
      cw g <= w /\ ch g <= h
      /\ ((cw g = width opts /\ ch g = height opts) \/ cw g = w \/ ch g = h)).
Proof.
  intros W H TW TH U. cbv zeta.
  rewrite fitGeometry_phases, fillMissing_both by lia.
  rewrite placedSize_other, snapCanvas_other by assumption.
  pose proof (inject_Z_pos _ TW) as TWq. pose proof (inject_Z_pos _ TH) as THq.
  destruct (shrinkToSource_scaled w h (noEnlarge opts) _ _
              (inject_Z (width opts)) (inject_Z (height opts)) W H TWq THq)
    as (t & i2 & j2 & c2 & d2 & E & T & Si & Sj & Sc & Sd).
  destruct (shrinkToSource_same w h (noEnlarge opts)
              (inject_Z (width opts)) (inject_Z (height opts))) as (c' & d' & E').
  rewrite E in E'. injection E' as -> -> -> ->.
  destruct (shrinkToSource_le _ _ _ _ _ _ _ _ _ _ _
              (Qlt_le_weak _ _ TWq) (Qlt_le_weak _ _ THq) E) as [L1 L2].
  rewrite E. cbn [cw ch].
  split; [apply Math_round_le_Z; assumption|].
  split; [apply Math_round_le_Z; assumption|].
  split.
  - pose proof (Math_round_upper c') as A1. pose proof (Math_round_lower c') as A2.
    pose proof (Math_round_upper d') as B1. pose proof (Math_round_lower d') as B2.
    set (a := Math_round c') in *. set (b := Math_round d') in *.
    assert (R : (c' * inject_Z (height opts) == d' * inject_Z (width opts))%Q)
      by (rewrite Sc, Sd; ring).
    assert (X1 : (inject_Z (2 * (a * height opts - b * width opts))
                  <= inject_Z (width opts + height opts))%Q).
    { rewrite !inject_Z_mult, !inject_Z_sub, !inject_Z_mult, inject_Z_plus.
      change (inject_Z 2) with 2%Q.
      set (x := inject_Z a) in *. set (y := inject_Z b) in *.
      set (p := inject_Z (width opts)) in *. set (q := inject_Z (height opts)) in *.
      nra. }
    assert (X2 : (inject_Z (2 * (b * width opts - a * height opts))
                  <= inject_Z (width opts + height opts))%Q).
    { rewrite !inject_Z_mult, !inject_Z_sub, !inject_Z_mult, inject_Z_plus.
      change (inject_Z 2) with 2%Q.
      set (x := inject_Z a) in *. set (y := inject_Z b) in *.
      set (p := inject_Z (width opts)) in *. set (q := inject_Z (height opts)) in *.
      nra. }
    rewrite <- Zle_Qle in X1, X2. lia.
  - split.
    + intros NE. rewrite NE in E. cbn [shrinkToSource] in E.
      injection E as <- <-. rewrite !Math_round_inject_Z. split; reflexivity.
    + intros NE. rewrite NE in E.
      destruct (shrinkToSource_bound _ _ _ _ _ _ _ _ _ _ TWq THq E) as [B1 B2].
      split; [apply Math_round_le_Z; assumption|].
      split; [apply Math_round_le_Z; assumption|].
      destruct (shrinkToSource_tight w h (inject_Z (width opts)) (inject_Z (height opts))
                  (inject_Z (width opts)) (inject_Z (height opts)) TWq THq)
        as [K|(i3 & j3 & c3 & d3 & K & T3)]; rewrite E in K.
      * cbn [shrinkToSource] in K. injection K as -> ->.
        left. rewrite !Math_round_inject_Z. split; reflexivity.
      * injection K as <- <- _ _. right.
        destruct T3 as [T3|T3]; [left|right];
          rewrite (Math_round_comp _ _ T3); apply Math_round_inject_Z.
Qed.

Section WithHost.
Context {host : Host}.

(** C10.  A non-empty fit string that lower-cases to none of ["cover"],
    ["outside"], ["contain"], ["inside"] is kept by the normalizer (lower-
    cased), and the geometry is the one of ["stretch"]: the result is the
    result with fit ["stretch"]; the image has the size of the canvas and
    sits at offset (0,0); and, for a source of positive dimensions and both
    target sides given, the canvas is the requested box, each axis on its
    own, whatever the proportions of the source: exactly the requested
    width and height without [noEnlarge], and with [noEnlarge] either that
    or the box shrunk in its own proportions (up to rounding) until it is
    within the source and as wide or as high as the source. *)
Theorem unknown_fit_is_stretch (raw : RawOptions) (s : string) (img : drawable) :
  raw_fit raw = VString s -> s <> EmptyString ->
  uniformFit (toLowerCase s) = false ->
  let opts := validateOptions raw in
  fit opts = toLowerCase s
  /\ validateImageFit img opts = validateImageFit img (with_fit opts "stretch")
  /\ forall g, validateImageFit img opts = Ok g ->
               iw g = cw g /\ ih g = ch g /\ ix g = 0 /\ iy g = 0
               /\ forall w h,
                    getImageDimensions img = (w, h) -> 0 < w -> 0 < h ->
                    0 < width opts -> 0 < height opts ->
                    cw g <= width opts /\ ch g <= height opts
                    /\ 2 * Z.abs (cw g * height opts - ch g * width opts)
                       <= width opts + height opts
                    /\ (noEnlarge opts = false ->
                        cw g = width opts /\ ch g = height opts)
                    /\ (noEnlarge opts = true ->
                        cw g <= w /\ ch g <= h
                        /\ ((cw g = width opts /\ ch g = height opts)
                            \/ cw g = w \/ ch g = h)).
Proof.
  intros R N U opts.
  assert (F : fit opts = toLowerCase s).
  { unfold opts, validateOptions. cbn [fit]. rewrite R.
    destruct s; [contradiction|reflexivity]. }
  rewrite <- F in U. split; [assumption|].
  unfold validateImageFit. destruct (getImageDimensions img) as [w h].
  destruct (_ || _); [split; [reflexivity|discriminate]|].
  rewrite <- (fitGeometry_other_is_stretch w h opts U). cbn [type with_fit].
  split; [reflexivity|].
  intros g. destruct (_ && _); [discriminate|]. intros [= <-].
  destruct (stretch_geometry w h opts U) as (A & B & C & D).
  repeat (split; [assumption|]).
  intros w' h' [= <- <-] W H TW TH.
  exact (stretch_box_geometry w h opts W H TW TH U).
Qed.

End WithHost.

(* ------------------------------------------------------------------ *)
(** * Further properties of the renderers *)

Section BlurFacts.
Local Open Scope Q_scope.

Lemma Qle_bool_false (a b : Q) : Qle_bool a b = false <-> b < a.
Proof.
  split.
  - intros E. apply Qnot_le_lt. intros L. apply Qle_bool_iff in L. congruence.
  - intros L. destruct (Qle_bool a b) eqn:E; [|reflexivity].
    apply Qle_bool_iff in E. lra.
Qed.

Lemma ratio_le_one (a b : Z) :
  (0 < b)%Z -> (inject_Z a / inject_Z b <= 1 <-> (a <= b)%Z).
Proof.
  intros B. apply inject_Z_pos in B. rewrite Zle_Qle. split; intros L.
  - assert (E : (inject_Z a / inject_Z b) * inject_Z b == inject_Z a) by (field; lra).
    set (t := inject_Z a / inject_Z b) in *. nra.
  - apply Qle_shift_div_r; [assumption|lra].
Qed.

Lemma steps_le0 (r : Q) : Qle_bool ((r - 1) * (3 # 8)) 0 = true <-> r <= 1.
Proof. rewrite Qle_bool_iff. split; intros; lra. Qed.

End BlurFacts.

(** X16.  The smoothing pre-pass blurs exactly when the placed image is
    strictly smaller than the source on both axes: for a source of positive
    dimensions and a non-negative rounded image size, [getBlurredImage]
    hands back the image itself when the image is at least as wide or at
    least as high as the source, and otherwise a source-sized blurred copy,
    of radius [(min(W/iw, H/ih) - 1) * 0.375] when both sides are
    positive. *)
Theorem blur_only_when_downscaling (img : drawable) (fit : Fit) (opts : Options) :
  0 < imageWidth fit -> 0 < imageHeight fit -> 0 <= iw fit -> 0 <= ih fit ->
  (getBlurredImage img fit opts = Original img
   <-> imageWidth fit <= iw fit \/ imageHeight fit <= ih fit)
  /\ (iw fit < imageWidth fit -> ih fit < imageHeight fit ->
      exists steps,
        getBlurredImage img fit opts
        = Blurred img (imageWidth fit) (imageHeight fit) steps
        /\ (0 < iw fit -> 0 < ih fit ->
            steps = XFin ((Qmin (inject_Z (imageWidth fit) / inject_Z (iw fit))
                                (inject_Z (imageHeight fit) / inject_Z (ih fit)) - 1)
                          * (3 # 8)))).
Proof.
  intros W H I J. unfold getBlurredImage, xdiv.
  destruct (Z.eqb_spec (imageWidth fit) 0) as [|_]; [lia|].
  destruct (Z.eqb_spec (imageHeight fit) 0) as [|_]; [lia|].
  destruct (Z.ltb_spec (imageWidth fit) 0) as [|_]; [lia|].
  destruct (Z.ltb_spec (imageHeight fit) 0) as [|_]; [lia|].
  destruct (Z.eqb_spec (iw fit) 0) as [I0|I0]; destruct (Z.eqb_spec (ih fit) 0) as [J0|J0];
    cbn [xmin blurSteps xle0].
  - split; [split; [discriminate|intros [?|?]; lia]|].
    intros _ _. eexists. split; [reflexivity|intros; lia].
  - destruct (Qle_bool _ 0) eqn:E.
    + rewrite steps_le0, ratio_le_one in E by lia.
      split; [split; [right; assumption|reflexivity]|intros; lia].
    + split; [split; [discriminate|]|].
      * intros [L|L]; [lia|]. rewrite <- ratio_le_one, <- steps_le0 in L by lia. congruence.
      * intros _ _. eexists. split; [reflexivity|intros; lia].
  - destruct (Qle_bool _ 0) eqn:E.
    + rewrite steps_le0, ratio_le_one in E by lia.
      split; [split; [left; assumption|reflexivity]|intros; lia].
    + split; [split; [discriminate|]|].
      * intros [L|L]; [|lia]. rewrite <- ratio_le_one, <- steps_le0 in L by lia. congruence.
      * intros _ _. eexists. split; [reflexivity|intros; lia].
  - destruct (Qle_bool _ 0) eqn:E.
    + rewrite steps_le0, Q.min_le_iff in E.
      assert (imageWidth fit <= iw fit \/ imageHeight fit <= ih fit)
        by (rewrite !ratio_le_one in E by lia; exact E).
      split; [split; [trivial|reflexivity]|intros; lia].
    + split; [split; [discriminate|]|].
      * intros L.
        assert (X : (Qmin (inject_Z (imageWidth fit) / inject_Z (iw fit))
                          (inject_Z (imageHeight fit) / inject_Z (ih fit)) <= 1)%Q).
        { apply Q.min_le_iff. rewrite !ratio_le_one by lia. exact L. }
        apply steps_le0 in X. congruence.
      * intros _ _. eexists. split; [reflexivity|]. intros _ _. reflexivity.
Qed.

Lemma xgt0_not_le0 (s : xnumber) : s <> XNaN -> xgt0 s = negb (xle0 s).
Proof. destruct s; [contradiction|reflexivity|reflexivity]. Qed.

Lemma xdiv_not_NaN (a b : Z) : a <> 0 -> xdiv a b <> XNaN.
Proof.
  intros A. unfold xdiv. destruct (b =? 0); [|discriminate].
  destruct (Z.eqb_spec a 0); [contradiction|discriminate].
Qed.

Lemma xmin_not_NaN (a b : xnumber) : a <> XNaN -> b <> XNaN -> xmin a b <> XNaN.
Proof.
  destruct a as [|p|[]], b as [|q|[]]; cbn; intros A B; try contradiction; discriminate.
Qed.

Lemma blurSteps_not_NaN (a : xnumber) : a <> XNaN -> blurSteps a <> XNaN.
Proof. destruct a; cbn; intros A; try contradiction; discriminate. Qed.

Section WorkerScriptFacts.
Context {host : Host}.
Variable convertToBlob : Canvas -> value -> Q -> result Blob.

(** X17.  The two render strategies draw the same thing: for a geometry
    that records the size of the bitmap (both sides non-zero) and a worker
    whose canvas context has the features of the main thread's, the script
    of the worker builds exactly the canvas [renderToCanvas] builds from
    that bitmap, never throws while drawing, and replies with the id of
    the request and the outcome of the encoder. *)
Theorem worker_draws_like_direct (id : value) (bw bh : Z) (fit : Fit) (opts : Options) :
  imageWidth fit = bw -> imageHeight fit = bh -> bw <> 0 -> bh <> 0 ->
  workerCanvas hasImageSmoothingQuality hasFilter bw bh fit opts
  = Ok (renderToCanvas (CanvasLike bw bh) fit opts)
  /\ workerScript hasImageSmoothingQuality hasFilter convertToBlob
       (RenderRequest id bw bh fit opts)
     = match convertToBlob (renderToCanvas (CanvasLike bw bh) fit opts)
               (type opts) (quality opts) with
       | Ok blob => ReplyResult id blob
       | Err err => ReplyError id err
       end.
Proof.
  intros EW EH NW NH.
  assert (C : workerCanvas hasImageSmoothingQuality hasFilter bw bh fit opts
              = Ok (renderToCanvas (CanvasLike bw bh) fit opts)).
  { unfold workerCanvas, renderToCanvas, getBlurredImage, getSteppedImage.
    cbn [background truthy app]. rewrite EW, EH.
    rewrite xgt0_not_le0
      by (apply blurSteps_not_NaN, xmin_not_NaN; apply xdiv_not_NaN; assumption).
    destruct (smoothen opts); [|reflexivity].
    destruct hasFilter; [|reflexivity].
    destruct (xle0 _); reflexivity. }
  split; [exact C|]. cbn [workerScript]. rewrite C. reflexivity.
Qed.

End WorkerScriptFacts.

(* ------------------------------------------------------------------ *)
(** * Further properties of the source resolution and of the pipeline *)

Section PipelineMore.
Context {host : Host}.

Lemma loadUrlIntoImage_Ok (url : string) (d : drawable) :
  loadUrlIntoImage url = Ok d ->
  exists w h, d = HTMLImageElement w h /\ 0 < w /\ 0 < h.
Proof.
  unfold loadUrlIntoImage. destruct (loadImage url) as [[w h]|]; [|discriminate].
  destruct (Z.ltb_spec 0 w); destruct (Z.ltb_spec 0 h); cbn [andb];
    try discriminate.
  intros [= <-]. exists w, h. repeat split; assumption.
Qed.

(** X18.  An image obtained by loading (a URL string, or a blob on a host
    without [createImageBitmap]) is an image element of positive natural
    size, so the geometry of a loaded image never fails with the dimensions
    error, whatever the options. *)
Theorem loaded_image_has_dimensions (img : source) (opts opts' : Options) (d : drawable) :
  (exists s, img = SString s)
  \/ (hasCreateImageBitmap = false /\ exists size data, img = SBlob size data) ->
  validateImageAndMakeDrawable img opts = Ok d ->
  (exists w h, d = HTMLImageElement w h /\ 0 < w /\ 0 < h)
  /\ validateImageFit d opts' <> Err dimensionsError.
Proof.
  intros S E.
  assert (L : exists w h, d = HTMLImageElement w h /\ 0 < w /\ 0 < h).
  { destruct S as [[s ->]|[B (size & data & ->)]]; cbn [validateImageAndMakeDrawable] in E.
    - destruct (0 <? _); [|discriminate]. exact (loadUrlIntoImage_Ok _ _ E).
    - rewrite B in E. destruct (size =? 0); [discriminate|].
      exact (loadUrlIntoImage_Ok _ _ E). }
  split; [exact L|]. destruct L as (w & h & -> & W & H).
  rewrite (validateImageFit_cases (HTMLImageElement w h) opts' w h eq_refl) by lia.
  destruct (_ && _); discriminate.
Qed.

(** X19.  The sources that are rejected before anything is drawn: a missing
    source or an empty string ("Image is required"), an empty blob ("Blob
    is empty") and a value of no supported kind ("Cannot make drawable").
    The public operation fails with that error whatever the host, the
    options and the worker, and leaves the module state as it was. *)
Theorem rejected_sources (raw : RawOptions) (o : Outcome) (s : State) (data : string) :
  resizeImageToBlob SNullish raw o s = (Err (ResizeError "Image is required"), s)
  /\ resizeImageToBlob (SString EmptyString) raw o s
     = (Err (ResizeError "Image is required"), s)
  /\ resizeImageToBlob (SBlob 0 data) raw o s = (Err (ResizeError "Blob is empty"), s)
  /\ resizeImageToBlob SOther raw o s = (Err (ResizeError "Cannot make drawable"), s).
Proof. repeat split. Qed.

(** X20.  A failure of the source resolution or of the geometry is returned
    as it is, the same as by the direct strategy alone, and the call does
    nothing to the worker: the module state is unchanged (no spawn, no
    message, no id consumed). *)
Theorem early_failure_leaves_worker_alone
  (img : source) (raw : RawOptions) (o : Outcome) (s : State) (e : error) :
  validateImageAndMakeDrawable img (validateOptions raw) = Err e
  \/ (exists d, validateImageAndMakeDrawable img (validateOptions raw) = Ok d
                /\ validateImageFit d (validateOptions raw) = Err e) ->
  resizeImageToBlob img raw o s = (Err e, s) /\ resizeDirect img raw = Err e.
Proof.
  intros F. rewrite resizeImageToBlob_eq. unfold resizeDirect. cbv zeta.
  destruct F as [->|(d & -> & ->)]; split; reflexivity.
Qed.

(** X21.  When the worker strategy is not available (no [OffscreenCanvas]
    on the host, or a channel that failed before), the public operation is
    the direct strategy and nothing else: same result, module state
    unchanged. *)
Theorem without_worker_is_direct
  (img : source) (raw : RawOptions) (o : Outcome) (s : State) :
  hasOffscreenCanvas = false \/ _workerError s <> None ->
  resizeImageToBlob img raw o s = (resizeDirect img raw, s).
Proof.
  intros U. rewrite resizeImageToBlob_eq. unfold resizeDirect. cbv zeta.
  assert (A : hasOffscreenCanvas && negb (isSome (_workerError s)) = false).
  { destruct U as [->|U]; [reflexivity|].
    destruct (_workerError s); [apply andb_false_r|contradiction]. }
  rewrite A.
  destruct (validateImageAndMakeDrawable img (validateOptions raw)); [|reflexivity].
  destruct (validateImageFit _ _); reflexivity.
Qed.

Lemma render_success (d : drawable) (fit : Fit) (opts : Options) (o : Outcome)
  (s : State) (b : Blob) :
  _workerError s = None ->
  _worker s <> None \/ (spawn o = None /\ probe o = None) ->
  bitmap o = None -> response o = Ok b ->
  fst (renderToBlobWithOffscreenCanvas d fit opts o s) = Ok b.
Proof.
  intros E B Bm R. destruct s as [w we n l]. cbn [_worker _workerError] in *. subst we.
  unfold_js. cbn. destruct w as [w|].
  - rewrite Bm. cbn. rewrite R. reflexivity.
  - destruct B as [B|[B1 B2]]; [contradiction|].
    rewrite B1. cbn. rewrite B2. cbn. rewrite Bm. cbn. rewrite R. reflexivity.
Qed.

(** X22.  When the worker strategy succeeds, its blob is the result: for a
    source and geometry that resolve, on a host with [OffscreenCanvas], a
    channel that is ready or bootstraps in this call, a bitmap that is
    created and a reply [b] of the worker, the public operation returns [b]
    (the encoder of the main thread is not consulted). *)
Theorem worker_success_is_returned
  (img : source) (raw : RawOptions) (o : Outcome) (s : State)
  (d : drawable) (fit : Fit) (b : Blob) :
  validateImageAndMakeDrawable img (validateOptions raw) = Ok d ->
  validateImageFit d (validateOptions raw) = Ok fit ->
  hasOffscreenCanvas = true -> _workerError s = None ->
  _worker s <> None \/ (spawn o = None /\ probe o = None) ->
  bitmap o = None -> response o = Ok b ->
  fst (resizeImageToBlob img raw o s) = Ok b.
Proof.
  intros E1 E2 E3 E4 B Bm R. rewrite resizeImageToBlob_eq. cbv zeta.
  rewrite E1, E2, E3, E4. cbn [isSome negb andb].
  pose proof (render_success d fit (validateOptions raw) o s b E4 B Bm R) as F.
  destruct (renderToBlobWithOffscreenCanvas d fit (validateOptions raw) o s)
    as [[b'|e] s']; cbn [fst] in F; [|discriminate].
  injection F as ->. reflexivity.
Qed.

End PipelineMore.

(* ------------------------------------------------------------------ *)
(** * Further properties of the worker channel *)

Section ChannelMore.
Context {host : Host}.

Lemma postedIds_app (l l' : list event) :
  postedIds (l ++ l') = postedIds l ++ postedIds l'.
Proof.
  induction l as [|e l IH]; [reflexivity|].
  destruct e; cbn [postedIds app]; rewrite IH; reflexivity.
Qed.

Lemma closes_app (l l' : list event) : closes (l ++ l') = (closes l + closes l')%nat.
Proof.
  induction l as [|e l IH]; [reflexivity|].
  destruct e; cbn [closes app]; rewrite IH; reflexivity.
Qed.

(** What the attempt on the worker does to the id counter and to the log:
    nothing that shows in the ids, or one id taken, posted, and its bitmap
    closed. *)
Lemma worker_step_ids (d : drawable) (fit : Fit) (opts : Options) (o : Outcome)
  (s : State) :
  let s' := snd (renderToBlobWithOffscreenCanvas d fit opts o s) in
  (postedIds (log s') = postedIds (log s) /\ _messageId s' = _messageId s
   /\ closes (log s') = closes (log s))
  \/ (postedIds (log s') = postedIds (log s) ++ [_messageId s]
      /\ _messageId s' = _messageId s + 1
      /\ closes (log s') = S (closes (log s))).
Proof.
  destruct s as [w we n l]. unfold_js. cbn -[postedIds closes].
  destruct we as [e|]; cbn -[postedIds closes]; [left; repeat split|].
  destruct w as [w|]; cbn -[postedIds closes].
  - destruct (bitmap o); cbn -[postedIds closes]; [left; repeat split|].
    right. destruct (response o); cbn -[postedIds closes];
      rewrite <- ?app_assoc, postedIds_app, closes_app; cbn;
      rewrite ?Nat.add_1_r; repeat split.
  - destruct (spawn o); cbn -[postedIds closes];
      [left; rewrite postedIds_app, closes_app; cbn;
       rewrite app_nil_r, Nat.add_0_r; repeat split|].
    destruct (probe o); cbn -[postedIds closes];
      [left; rewrite <- ?app_assoc, postedIds_app, closes_app; cbn;
       rewrite app_nil_r, Nat.add_0_r; repeat split|].
    destruct (bitmap o); cbn -[postedIds closes];
      [left; rewrite <- ?app_assoc, postedIds_app, closes_app; cbn;
       rewrite app_nil_r, Nat.add_0_r; repeat split|].
    right. destruct (response o); cbn -[postedIds closes];
      rewrite <- ?app_assoc, postedIds_app, closes_app; cbn;
      rewrite ?Nat.add_1_r; repeat split.
Qed.

Lemma call_ids (img : source) (raw : RawOptions) (o : Outcome) (s : State) :
  let s' := snd (resizeImageToBlob img raw o s) in
  (postedIds (log s') = postedIds (log s) /\ _messageId s' = _messageId s
   /\ closes (log s') = closes (log s))
  \/ (postedIds (log s') = postedIds (log s) ++ [_messageId s]
      /\ _messageId s' = _messageId s + 1
      /\ closes (log s') = S (closes (log s))).
Proof.
  cbv zeta. destruct (resize_state img raw o s) as [->|[_ (d & fit & ->)]].
  - left. repeat split.
  - apply worker_step_ids.
Qed.

Lemma call_spawns (img : source) (raw : RawOptions) (o : Outcome) (s : State) :
  let s' := snd (resizeImageToBlob img raw o s) in
  (channel s = Uninitialized ->
   (channel s' = Uninitialized /\ spawns (log s') = spawns (log s))
   \/ (channel s' <> Uninitialized /\ spawns (log s') = S (spawns (log s))))
  /\ (channel s <> Uninitialized ->
      channel s' <> Uninitialized /\ spawns (log s') = spawns (log s)).
Proof.
  cbv zeta. split.
  - intros U. destruct (resize_state img raw o s) as [->|[_ (d & fit & ->)]].
    + left. split; [assumption|reflexivity].
    + right. pose proof (worker_step d fit (validateOptions raw) o s) as W.
      cbv zeta in W. rewrite U in W. destruct W as [W1 W2]. split; [|assumption].
      destruct (spawn o); [destruct W2 as [-> _]; discriminate|].
      destruct (probe o); [destruct W2 as [-> _]; discriminate|].
      rewrite W2. discriminate.
  - intros N. destruct (channel s) as [|w|e] eqn:C; [contradiction| |].
    + destruct (ready_call img raw o s w C) as [-> ->].
      split; [discriminate|reflexivity].
    + rewrite (failed_call img raw o s e C). rewrite C.
      split; [discriminate|reflexivity].
Qed.

(** X23.  A process creates at most one worker: after any sequence of calls
    from the initial state, either the channel is still uninitialized and
    [createWebWorker] was never called, or it is ready or failed and
    [createWebWorker] was called exactly once. *)
Theorem worker_spawned_at_most_once (l : list (source * RawOptions * Outcome)) :
  let s := calls l initialState in
  (channel s = Uninitialized /\ spawns (log s) = O)
  \/ (channel s <> Uninitialized /\ spawns (log s) = 1%nat).
Proof.
  cbv zeta.
  assert (G : forall s,
             (channel s = Uninitialized /\ spawns (log s) = O)
             \/ (channel s <> Uninitialized /\ spawns (log s) = 1%nat) ->
             (channel (calls l s) = Uninitialized /\ spawns (log (calls l s)) = O)
             \/ (channel (calls l s) <> Uninitialized
                 /\ spawns (log (calls l s)) = 1%nat)).
  { induction l as [|[[img raw] o] l IH]; intros s I; [exact I|].
    cbn [calls]. apply IH.
    destruct (call_spawns img raw o s) as [A B]. destruct I as [[U Z0]|[N Z1]].
    - destruct (A U) as [[U' E]|[N' E]]; [left|right]; split; congruence.
    - destruct (B N) as [N' E]. right. split; congruence. }
  apply G. left. split; reflexivity.
Qed.

(** X24.  Correlation ids are used once and in order, and every bitmap
    handed to the worker is closed: after any sequence of calls from the
    initial state, with [n] the value of the id counter, the render
    messages posted so far carry exactly the ids 0, 1, ..., n-1 in this
    order, and [n] bitmaps were closed (also for the calls the worker
    answered with an error). *)
Theorem ids_in_order_and_bitmaps_closed (l : list (source * RawOptions * Outcome)) :
  let s := calls l initialState in
  exists n : nat,
    _messageId s = Z.of_nat n
    /\ postedIds (log s) = List.map Z.of_nat (List.seq 0 n)
    /\ closes (log s) = n.
Proof.
  cbv zeta.
  assert (G : forall s,
             (exists n, _messageId s = Z.of_nat n
                        /\ postedIds (log s) = List.map Z.of_nat (List.seq 0 n)
                        /\ closes (log s) = n) ->
             exists n, _messageId (calls l s) = Z.of_nat n
                       /\ postedIds (log (calls l s)) = List.map Z.of_nat (List.seq 0 n)
                       /\ closes (log (calls l s)) = n).
  { induction l as [|[[img raw] o] l IH]; intros s I; [exact I|].
    cbn [calls]. apply IH. destruct I as (n & M & P & C).
    destruct (call_ids img raw o s) as [(P' & M' & C')|(P' & M' & C')].
    - exists n. rewrite P', M', C'. repeat split; assumption.
    - exists (S n). rewrite P', M', C', P, M, C.
      split; [lia|]. split; [|reflexivity].
      rewrite seq_S, map_app. reflexivity. }
  apply G. exists O. repeat split.
Qed.

End ChannelMore.

(* ------------------------------------------------------------------ *)
(** * The further properties at concrete inputs *)

Lemma validateOptions_numbers_witness :
  width (validateOptions (host := fullHost) noOptions) = 0
  /\ quality (validateOptions (host := fullHost) noOptions) == 1.
Proof.
  pose proof (validateOptions_numbers (host := fullHost) noOptions) as (A & _ & C & _).
  split; [apply A|apply C]; left; reflexivity.
Defined.

Lemma validateImageFit_errors_witness :
  validateImageFit (CanvasLike 0 10) (mkOptions 5 5 "cover" false 0 0 "image/png")
  = Err dimensionsError.
Proof.
  apply (validateImageFit_errors (CanvasLike 0 10)
           (mkOptions 5 5 "cover" false 0 0 "image/png") 0 10 eq_refl).
  left. reflexivity.
Defined.

Lemma no_size_keeps_source_witness :
  validateImageFit (HTMLImageElement 640 480) (validateOptions (host := fullHost) noOptions)
  = Ok {| imageWidth := 640; imageHeight := 480; cw := 640; ch := 480;
          iw := 640; ih := 480; ix := 0; iy := 0 |}.
Proof.
  apply (no_size_keeps_source (host := fullHost) noOptions (HTMLImageElement 640 480)
           640 480 eq_refl);
    [lia|lia|left; reflexivity|left; reflexivity|left; discriminate].
Defined.



Lemma gravity_only_for_contain_and_cover_witness :
  exists g, validateImageFit (HTMLImageElement 200 100)
              (mkOptions 100 100 "inside" false 1 1 "image/png") = Ok g
            /\ iw g = cw g /\ ih g = ch g /\ ix g = 0 /\ iy g = 0.
Proof.
  eexists. split; [vm_compute; reflexivity|].
  apply (gravity_only_for_contain_and_cover (HTMLImageElement 200 100)
           (mkOptions 100 100 "inside" false 1 1 "image/png"));
    [right; right; split; discriminate|vm_compute; reflexivity].
Defined.


Lemma noEnlarge_is_tight_witness :
  validateImageFit (HTMLImageElement 50 40)
    (mkOptions 300 100 "stretch" true 0 0 "image/png")
  = validateImageFit (HTMLImageElement 50 40)
      (with_noEnlarge (mkOptions 300 100 "stretch" true 0 0 "image/png") false)
  \/ match validateImageFit (HTMLImageElement 50 40)
             (mkOptions 300 100 "stretch" true 0 0 "image/png") with
     | Ok g => iw g = 50 \/ ih g = 40
     | Err e => e = icoError
     end.
Proof.
  apply (noEnlarge_is_tight (HTMLImageElement 50 40)
           (mkOptions 300 100 "stretch" true 0 0 "image/png") 50 40 eq_refl);
    [lia|lia|simpl; lia|simpl; lia|reflexivity].
Defined.

Lemma ico_requested_size_witness :
  validateImageFit (HTMLImageElement 640 480) (validateOptions (host := fullHost) largeIco)
  = Err icoError.
Proof.
  apply (ico_requested_size (HTMLImageElement 640 480)
           (validateOptions (host := fullHost) largeIco) 640 480 eq_refl);
    [lia|lia|reflexivity|vm_compute; discriminate|vm_compute; discriminate
    |reflexivity|vm_compute; discriminate|vm_compute; discriminate
    |left; vm_compute; reflexivity].
Defined.

Lemma stretch_is_requested_box_witness :
  validateImageFit (HTMLImageElement 640 480)
    (validateOptions (host := fullHost)
       (rawOptions 100 50 (VString "stretch") (VString "north") VUndefined))
  = Ok {| imageWidth := 640; imageHeight := 480; cw := 100; ch := 50;
          iw := 100; ih := 50; ix := 0; iy := 0 |}.
Proof.
  apply (stretch_is_requested_box (HTMLImageElement 640 480)
           (validateOptions (host := fullHost)
              (rawOptions 100 50 (VString "stretch") (VString "north") VUndefined))
           640 480 eq_refl);
    [lia|lia|vm_compute; discriminate|vm_compute; discriminate
    |reflexivity|reflexivity|left; vm_compute; discriminate].
Defined.

Lemma blur_only_when_downscaling_witness :
  exists steps,
    getBlurredImage (HTMLImageElement 200 100) halved
      (mkOptions 100 50 "stretch" false 0 0 "image/png")
    = Blurred (HTMLImageElement 200 100) 200 100 steps
    /\ steps = XFin ((Qmin (inject_Z 200 / inject_Z 100) (inject_Z 100 / inject_Z 50) - 1)
                     * (3 # 8)).
Proof.
  destruct (proj2 (blur_only_when_downscaling (HTMLImageElement 200 100) halved
                     (mkOptions 100 50 "stretch" false 0 0 "image/png")
                     ltac:(simpl; lia) ltac:(simpl; lia) ltac:(simpl; lia)
                     ltac:(simpl; lia))
              ltac:(simpl; lia) ltac:(simpl; lia)) as (steps & E & S).
  exists steps. split; [exact E|]. apply S; simpl; lia.
Defined.

Lemma worker_draws_like_direct_witness :
  workerScript (host := fullHost) true true (fun c _ _ => Ok (canvas_width c, canvas_height c))
    (RenderRequest (VNumber (Num 0)) 200 100 halved
       (mkOptions 100 50 "stretch" false 0 0 "image/png"))
  = ReplyResult (VNumber (Num 0)) (100, 50).
Proof.
  exact (proj2 (worker_draws_like_direct (host := fullHost)
                  (fun c _ _ => Ok (canvas_width c, canvas_height c))
                  (VNumber (Num 0)) 200 100 halved
                  (mkOptions 100 50 "stretch" false 0 0 "image/png")
                  eq_refl eq_refl ltac:(lia) ltac:(lia))).
Defined.

Lemma loaded_image_has_dimensions_witness :
  validateImageFit (HTMLImageElement 640 480) (mkOptions 0 0 "stretch" false 0 0 "image/png")
  <> Err dimensionsError.
Proof.
  apply (loaded_image_has_dimensions (host := plainHost)
           (SString "https://example.org/a.png")
           (mkOptions 0 0 "stretch" false 0 0 "image/png")
           (mkOptions 0 0 "stretch" false 0 0 "image/png")
           (HTMLImageElement 640 480));
    [left; eexists; reflexivity|reflexivity].
Defined.

Lemma early_failure_leaves_worker_alone_witness :
  resizeImageToBlob (host := fullHost) picture200x100 largeIco renders initialState
  = (Err icoError, initialState).
Proof.
  apply (early_failure_leaves_worker_alone (host := fullHost) picture200x100 largeIco
           renders initialState icoError).
  right. eexists. split; [reflexivity|vm_compute; reflexivity].
Defined.

Lemma without_worker_is_direct_witness :
  resizeImageToBlob (host := fullHost) picture200x100 contain100 renders failedState
  = (Ok (100, 100), failedState).
Proof.
  rewrite (without_worker_is_direct (host := fullHost) picture200x100 contain100
             renders failedState); [vm_compute; reflexivity|].
  right. discriminate.
Defined.

Lemma worker_success_is_returned_witness :
  fst (resizeImageToBlob (host := fullHost) picture200x100 contain100 renders initialState)
  = Ok (1, 1).
Proof.
  eapply (worker_success_is_returned (host := fullHost) picture200x100 contain100
            renders initialState);
    [reflexivity|vm_compute; reflexivity|reflexivity|reflexivity
    |right; split; reflexivity|reflexivity|reflexivity].
Defined.



Lemma unknown_fit_is_stretch_witness :
  exists g, validateImageFit (HTMLImageElement 200 100)
              (validateOptions (host := fullHost)
                 (rawOptions 120 90 (VString "Fill") (VString "north") VUndefined)) = Ok g
            /\ iw g = cw g /\ ih g = ch g /\ ix g = 0 /\ iy g = 0
            /\ cw g = 120 /\ ch g = 90.
Proof.
  eexists. split; [vm_compute; reflexivity|].
  destruct (proj2 (proj2 (unknown_fit_is_stretch (host := fullHost)
                            (rawOptions 120 90 (VString "Fill") (VString "north") VUndefined)
                            "Fill" (HTMLImageElement 200 100)
                            eq_refl ltac:(discriminate) eq_refl))
              _ ltac:(vm_compute; reflexivity)) as (A & B & C & D & E).
  repeat (split; [assumption|]).
  apply (E 200 100 eq_refl ltac:(lia) ltac:(lia)
           ltac:(vm_compute; reflexivity) ltac:(vm_compute; reflexivity)).
  reflexivity.
Defined.
